(** * Shorts generator (app.py): job queue and parallel segment rendering

    A shallow embedding of [app.py].  The script is a Streamlit page: every
    user interaction re-runs the module top to bottom against the persistent
    [st.session_state].  The embedding follows the source line by line:

    - Python exceptions are the [Raise] branch of [result];
    - the module's effects (session state, subprocess invocations, UI
      calls) live in one [machine] record threaded by the monad [M];
    - everything the script obtains from outside (widget values, the uuid,
      pytube, ffmpeg, the two HTTP services, the order in which
      [as_completed] delivers the futures) is read from an [environment], one
      per script run.

    Typing choices for the dynamically typed parts: strings are
    [String.string], one [ascii] per character; JSON numbers are rationals
    [Q] (every finite float and every integer is one, and Python compares
    them exactly), and [count / total] is the float nearest to the
    quotient; a segment is
    the JSON object the scoring prompt asks for, a dictionary from field
    name to number, and a scoring reply decodes to a list of them or not at
    all; the [text] fields of both HTTP replies hold strings.
    The result display loop at the end of the module (lines 131-138) is not
    embedded: [script] is the run up to line 128.  The loop reads the
    session state without changing it, so what the statements below say of
    the session state holds of whole runs; the loop can raise on its own (a
    file it opens may be missing), which no statement below is about. *)

From Stdlib Require Import Ascii String QArith Lqa Sorted Permutation.
From stdpp Require Import gmap strings list fin_maps pretty.

Local Open Scope string_scope.
Local Open Scope list_scope.

(** ** Exceptions and results *)

Inductive exn :=
  | KeyError (key : string)
  | IndexError
  | FileNotFoundError (path : string)
  | ConnectionError
  | JSONDecodeError
  | ZeroDivisionError
  | VideoUnavailable.

Inductive result (A : Type) :=
  | Ok (a : A)
  | Raise (e : exn).
Arguments Ok {A} a.
Arguments Raise {A} e.

Definition is_Ok {A} (r : result A) : bool :=
  match r with Ok _ => true | Raise _ => false end.

(** ** Python string operations used by the module *)

Module PyStr.

(** [s[:n]] *)
Fixpoint slice_to (n : nat) (s : string) : string :=
  match n, s with
  | S n', String c s' => String c (slice_to n' s')
  | _, _ => EmptyString
  end.

(** Left-to-right scan of [str.replace] for a non-empty [old]: [skip]
    counts the characters of a match that are still to be dropped. *)
Fixpoint replace_scan (old new : string) (skip : nat) (s : string) : string :=
  match s with
  | EmptyString => EmptyString
  | String c s' =>
      match skip with
      | S k => replace_scan old new k s'
      | O =>
          if String.prefix old s
          then new +:+ replace_scan old new (String.length old - 1) s'
          else String c (replace_scan old new 0 s')
      end
  end.

Fixpoint intersperse_after (new : string) (s : string) : string :=
  match s with
  | EmptyString => EmptyString
  | String c s' => String c (new +:+ intersperse_after new s')
  end.

(** [s.replace(old, new)]: every non-overlapping occurrence, leftmost
    first; an empty [old] matches before every character and at the end. *)
Definition replace (s old new : string) : string :=
  match old with
  | EmptyString => new +:+ intersperse_after new s
  | String _ _ => replace_scan old new 0 s
  end.

(** [os.path.join(a, b)] for a relative [b] *)
Definition path_join (a b : string) : string :=
  match a with
  | EmptyString => b
  | _ => if String.prefix "/" (String.rev a) then a +:+ b else a +:+ "/" +:+ b
  end.

Definition newline : ascii := Ascii.ascii_of_nat 10.
Definition space : ascii := Ascii.ascii_of_nat 32.
Definition nl : string := String newline EmptyString.
Definition sp : string := String space EmptyString.

End PyStr.

(** ** Data model *)

(** A segment candidate, as decoded from the scoring reply. *)
Abbreviation segment := (gmap string Q).

(** [{"file": ..., "viral_score": ...}] *)
Record short := Short { file : string; viral_score : Q }.

(** [{"id": ..., "url": ...}] *)
Record job := Job { id : string; url : string }.

(** [{"shorts": ..., "zip": ...}] *)
Record job_result := JobResult { shorts : list short; zip : string }.

(** [st.session_state]; a stored result of [None] is Python's [None]. *)
Record session_state := SessionState {
  queue : list job;
  results : gmap string (option job_result);
  processing : option string
}.

(** One argument of a subprocess command line; [ANum q] stands for [str(q)]. *)
Inductive arg := AStr (s : string) | ANum (q : Q).

Inductive ui_event :=
  | Info (msg : string)
  | Success (msg : string)
  | Error (msg : string)
  | Progress (x : Q)
  | ProgressEmpty.

(** Writes to [st.session_state.processing] after initialisation. *)
Inductive slot_event :=
  | Acquire (job_id : string)
  | Release.

Record machine := Machine {
  session : session_state;
  commands : list (list arg);
  ui : list ui_event;
  slot_log : list slot_event
}.

(** What a [requests.post] produced: the call raised, or a response whose
    body is JSON ([Some]) or not ([None]). *)
Inductive http (A : Type) :=
  | Unreachable
  | Response (body : option A).
Arguments Unreachable {A}.
Arguments Response {A} body.

Record environment := Environment {
  text_input : string;
  button : bool;
  uuid4 : string;
  mkdtemp : string;
  pytube_ok : string -> bool;
  ffmpeg_on_path : bool;
  readable : string -> bool;
  whisper_post : http (gmap string string);
  groq_post : http (gmap string (list (gmap string string)));
  json_loads : string -> option (list segment);
  delivery_order : list nat
}.

(** ** The monad of the script: reader, state, exceptions *)

Definition M (A : Type) : Type := environment -> machine -> result A * machine.

Definition ret {A} (a : A) : M A := fun _ w => (Ok a, w).

Definition bind {A B} (m : M A) (k : A -> M B) : M B :=
  fun env w =>
    match m env w with
    | (Ok a, w') => k a env w'
    | (Raise e, w') => (Raise e, w')
    end.

#[global] Instance M_ret : MRet M := @ret.
#[global] Instance M_bind : MBind M := fun A B k m => bind m k.

Definition raise {A} (e : exn) : M A := fun _ w => (Raise e, w).
Definition ask {A} (f : environment -> A) : M A := fun env w => (Ok (f env), w).
Definition get_session : M session_state := fun _ w => (Ok (session w), w).

Definition put_session (s : session_state) : M unit :=
  fun _ w => (Ok tt, Machine s (commands w) (ui w) (slot_log w)).

Definition emit (e : ui_event) : M unit :=
  fun _ w => (Ok tt, Machine (session w) (commands w) (ui w ++ [e]) (slot_log w)).

(** [future.result()]: the value kept in the future, or its exception. *)
Definition lift {A} (r : result A) : M A := fun _ w => (r, w).

(** [try: body except: handler] with a bare [except] *)
Definition try_except {A} (body handler : M A) : M A :=
  fun env w =>
    match body env w with
    | (Ok a, w') => (Ok a, w')
    | (Raise _, w') => handler env w'
    end.

(** [subprocess.run(args)] without [check=True]: the exit status is ignored,
    only a missing executable raises. *)
Definition subprocess_run (args : list arg) : M unit :=
  fun env w =>
    if ffmpeg_on_path env
    then (Ok tt, Machine (session w) (commands w ++ [args]) (ui w) (slot_log w))
    else (Raise (FileNotFoundError "ffmpeg"), w).

(** [d[k]] on a dictionary *)
Definition getitem {V} (d : gmap string V) (k : string) : M V :=
  match d !! k with
  | Some v => ret v
  | None => raise (KeyError k)
  end.

(** [l[0]] on a list *)
Definition getitem0 {V} (l : list V) : M V :=
  match l with
  | v :: _ => ret v
  | [] => raise IndexError
  end.

(** ** Helper functions *)

Definition download_youtube_video (url output_path : string) : M string :=
  ok ← ask pytube_ok;
  if ok url : bool
  then mret (PyStr.path_join output_path "video.mp4")
  else raise VideoUnavailable.

Definition sentinel : string := "Transcript not available.".

Definition generate_subtitles (video_path : string) : M string :=
  let audio_path := PyStr.replace video_path ".mp4" ".wav" in
  subprocess_run [AStr "ffmpeg"; AStr "-i"; AStr video_path; AStr "-ar";
                  AStr "16000"; AStr "-ac"; AStr "1"; AStr audio_path];;
  can_read ← ask readable;
  (if can_read audio_path : bool then ret tt
   else raise (FileNotFoundError audio_path));;
  post ← ask whisper_post;
  response ← match post with
             | Unreachable => raise ConnectionError
             | Response body => ret body
             end;
  try_except
    (parsed ← match response with
              | Some d => ret d
              | None => raise JSONDecodeError
              end;
     getitem parsed "text")
    (ret sentinel).

Definition analyze_video_with_groq (transcript : string) : M (list segment) :=
  post ← ask groq_post;
  response ← match post with
             | Unreachable => raise ConnectionError
             | Response body => ret body
             end;
  try_except
    (parsed ← match response with
              | Some d => ret d
              | None => raise JSONDecodeError
              end;
     choices ← getitem parsed "choices";
     choice ← getitem0 choices;
     text ← getitem choice "text";
     loads ← ask json_loads;
     match loads text with
     | Some segments => ret segments
     | None => raise JSONDecodeError
     end)
    (ret []).

Definition caption_of (transcript : string) : string :=
  PyStr.replace (PyStr.slice_to 200 transcript) PyStr.nl PyStr.sp.

Definition process_segment (video_path : string) (seg : segment)
    (transcript : string) (idx : nat) : M short :=
  start ← getitem seg "start";
  end_ ← getitem seg "end";
  let clip_file := "short_" +:+ pretty (idx + 1)%nat +:+ ".mp4" in
  subprocess_run [AStr "ffmpeg"; AStr "-i"; AStr video_path; AStr "-ss";
                  ANum start; AStr "-to"; ANum end_; AStr "-c"; AStr "copy";
                  AStr clip_file];;
  let caption_text := caption_of transcript in
  let subtitled_file := "short_" +:+ pretty (idx + 1)%nat +:+ "_subtitled.mp4" in
  subprocess_run [AStr "ffmpeg"; AStr "-i"; AStr clip_file; AStr "-vf";
                  AStr ("drawtext=text='" +:+ caption_text +:+
                        "':fontcolor=white:fontsize=24:x=(w-text_w)/2:y=h-50");
                  AStr "-codec:a"; AStr "copy"; AStr subtitled_file];;
  score ← getitem seg "viral_score";
  ret (Short subtitled_file score).

(** ** Python list operations used by the module *)

Module PyList.

(** [enumerate(l, start)] *)
Fixpoint enumerate {A} (start : nat) (l : list A) : list (nat * A) :=
  match l with
  | [] => []
  | x :: l' => (start, x) :: enumerate (S start) l'
  end.

(** Where a stable descending sort puts [x] when [x] came before all of
    [l]: in front of the first element whose key is not larger. *)
Fixpoint insert_desc {A} (key : A -> Q) (x : A) (l : list A) : list A :=
  match l with
  | [] => [x]
  | y :: l' =>
      if Qle_bool (key y) (key x) then x :: y :: l'
      else y :: insert_desc key x l'
  end.

(** [sorted(l, key=key, reverse=True)]: descending by key, elements with
    equal keys in the order they have in [l]. *)
Definition sorted_reverse {A} (key : A -> Q) (l : list A) : list A :=
  foldr (insert_desc key) [] l.

End PyList.

(** A list comprehension [[f(x) for x in l]] with an effectful [f]. *)
Fixpoint comprehension {A B} (f : A -> M B) (l : list A) : M (list B) :=
  match l with
  | [] => mret []
  | x :: l' => y ← f x; ys ← comprehension f l'; mret (y :: ys)
  end.

(** A [for] loop over [l] whose body updates the local state [s]. *)
Fixpoint for_each {A S} (l : list A) (body : A -> S -> M S) (s : S) : M S :=
  match l with
  | [] => mret s
  | x :: l' => s' ← body x s; for_each l' body s'
  end.

(** ** Python float division *)

Module PyFloat.

(** The integer nearest to [n / d], the even one of two equally near
    ([0 < d]). *)
Definition round_half_even (n d : Z) : Z :=
  let q := (n / d)%Z in
  match (2 * (n mod d) ?= d)%Z with
  | Lt => q
  | Gt => (q + 1)%Z
  | Eq => if Z.even q then q else (q + 1)%Z
  end.

(** [floor (log2 (p / q))] for positive [p] and [q]. *)
Definition binade (p q : Z) : Z :=
  let e := (Z.log2 p - Z.log2 q)%Z in
  if (p * 2 ^ Z.max 0 (- e) <? q * 2 ^ Z.max 0 e)%Z then (e - 1)%Z else e.

(** The float [p / q] of two non-negative ints, as the rational it is: the
    binary64 value nearest to the quotient, ties to even, that is a 53-bit
    significand times a power of two.  Exponent limits are not modelled:
    they are out of reach of the quotient of two list lengths. *)
Definition nearest_double (p q : Z) : Q :=
  if (p <=? 0)%Z || (q <=? 0)%Z then 0%Q
  else
    let s := (52 - binade p q)%Z in
    Qred (if (0 <=? s)%Z
          then Qmake (round_half_even (p * 2 ^ s) q) (Z.to_pos (2 ^ s))
          else inject_Z (round_half_even p (q * 2 ^ (- s)) * 2 ^ (- s))).

(** Half the spacing of the floats just below 1: [2^-54]. *)
Definition half_ulp : Q := 1 # 18014398509481984.

End PyFloat.

(** [count / total] on two ints: a float, or [ZeroDivisionError] *)
Definition truediv (count total : nat) : M Q :=
  match total with
  | O => raise ZeroDivisionError
  | S _ => mret (PyFloat.nearest_double (Z.of_nat count) (Z.of_nat total))
  end.

(** ** The thread pool *)

(** [executor.submit(task)]: the task runs and its outcome, value or
    exception, is kept in the future.  Tasks are run at submission; their
    only effects are ffmpeg invocations on files of their own. *)
Definition submit {A} (task : M A) : M (result A) :=
  fun env w => let '(r, w') := task env w in (Ok r, w').

(** [as_completed(futures)]: the futures in the order in which the iterator
    hands them over, which the environment gives as a list of their indices.
    Futures still running at the call come as they finish; those already
    finished come first, in an order of the library's choosing.  So this is
    an order of delivery, not the order in which the tasks finished. *)
Definition as_completed {A} (futures : list (result A)) : M (list (result A)) :=
  order ← ask delivery_order;
  mret (omap (fun i : nat => futures !! i) order).

Definition create_shorts_parallel (video_path : string) (segments : list segment)
    (transcript : string) (update_progress : Q -> M unit) : M (list short) :=
  let total := length segments in
  futures ← comprehension
              (fun '(idx, seg) => submit (process_segment video_path seg transcript idx))
              (PyList.enumerate 0 segments);
  completed ← as_completed futures;
  shorts ← for_each (PyList.enumerate 1 completed)
             (fun '(count, future) shorts =>
                r ← lift future;
                let shorts := shorts ++ [r] in
                x ← truediv count total;
                update_progress x;;
                mret shorts)
             [];
  mret (PyList.sorted_reverse viral_score shorts).

Definition create_zip (shorts : list short) : M string :=
  let zip_filename := "shorts_bundle.zip" in
  for_each shorts
    (fun short _ =>
       can_read ← ask readable;
       if can_read (file short) : bool then mret tt
       else raise (FileNotFoundError (file short)))
    tt;;
  mret zip_filename.

(** ** Session state accessors *)

Definition fresh_session : session_state := SessionState [] ∅ None.

(** [st.session_state.queue.append(j)] *)
Definition queue_append (j : job) : M unit :=
  s ← get_session;
  put_session (SessionState (queue s ++ [j]) (results s) (processing s)).

(** [st.session_state.queue.pop(0)] *)
Definition queue_pop0 : M job :=
  s ← get_session;
  match queue s with
  | [] => raise IndexError
  | j :: rest => put_session (SessionState rest (results s) (processing s));; mret j
  end.

(** [st.session_state.processing = v] *)
Definition set_processing (v : option string) : M unit :=
  fun _ w =>
    let s := session w in
    (Ok tt,
     Machine (SessionState (queue s) (results s) v) (commands w) (ui w)
       (slot_log w ++ [match v with Some j => Acquire j | None => Release end])).

(** [st.session_state.results[k] = v] *)
Definition set_result (k : string) (v : option job_result) : M unit :=
  s ← get_session;
  put_session (SessionState (queue s) (<[k := v]> (results s)) (processing s)).

(** ** The page script *)

(** Lines 97-102. *)
Definition submit_job : M unit :=
  youtube_url ← ask text_input;
  job_id ← ask uuid4;
  clicked ← ask button;
  if clicked && bool_decide (youtube_url ≠ EmptyString)
  then
    queue_append (Job job_id youtube_url);;
    emit (Info ("Job added to queue. Job ID: " +:+ job_id))
  else mret tt.

(** Lines 104-128. *)
Definition process_queue : M unit :=
  s ← get_session;
  if bool_decide (processing s = None) && bool_decide (queue s ≠ [])
  then
    current_job ← queue_pop0;
    set_processing (Some (id current_job));;
    emit (Info ("Processing Job: " +:+ id current_job));;
    temp_dir ← ask mkdtemp;
    video_path ← download_youtube_video (url current_job) temp_dir;
    transcript ← generate_subtitles video_path;
    segments ← analyze_video_with_groq transcript;
    match segments with
    | _ :: _ =>
        emit (Progress 0);;
        shorts ← create_shorts_parallel video_path segments transcript
                   (fun x => emit (Progress x));
        zip_file ← create_zip shorts;
        set_result (id current_job) (Some (JobResult shorts zip_file));;
        emit ProgressEmpty;;
        emit (Success "Shorts Generated!")
    | [] =>
        set_result (id current_job) None;;
        emit (Error "Failed to generate shorts.")
    end;;
    set_processing None
  else mret tt.

(** Lines 97-128: a run of the page up to the display loop. *)
Definition script : M unit := submit_job;; process_queue.

(** One run of the page up to the display loop: the machine it leaves
    behind, whether these lines went through or stopped at an exception.  The
    display loop, where it is reached, leaves the session state as it
    is. *)
Definition rerun (w : machine) (env : environment) : machine := snd (script env w).

(** A session: successive runs from a fresh session state. *)
Definition fresh : machine := Machine fresh_session [] [] [].
Definition run_session (envs : list environment) : machine := foldl rerun fresh envs.

(** * Vocabulary of the statements *)

Section Keys.
Context {A : Type} (key : A -> Q).

(** [a] may stand before [b] in a descending list. *)
Definition desc (a b : A) : Prop := (key b <= key a)%Q.

(** The elements of [l] whose key equals [v], in their order in [l]. *)
Definition with_key (v : Q) (l : list A) : list A :=
  List.filter (fun a => Qeq_bool (key a) v) l.

(** No two places of [l] hold the same key. *)
Definition distinct_keys (l : list A) : Prop :=
  forall i j a b, l !! i = Some a -> l !! j = Some b ->
    (key a == key b)%Q -> i = j.

End Keys.

(** A newline becomes a space, any other character stays. *)
Definition flatten_char (c : ascii) : ascii :=
  if Ascii.eqb c PyStr.newline then PyStr.space else c.

(** The second ffmpeg invocation of [process_segment], the one that burns
    the caption in. *)
Definition drawtext_command (caption : string) (idx : nat) : list arg :=
  [AStr "ffmpeg"; AStr "-i"; AStr ("short_" +:+ pretty (idx + 1)%nat +:+ ".mp4");
   AStr "-vf";
   AStr ("drawtext=text='" +:+ caption +:+
         "':fontcolor=white:fontsize=24:x=(w-text_w)/2:y=h-50");
   AStr "-codec:a"; AStr "copy";
   AStr ("short_" +:+ pretty (idx + 1)%nat +:+ "_subtitled.mp4")].

(** What the body of the [try] in [generate_subtitles] evaluates to when none
    of its steps fails: [response.json()["text"]]. *)
Definition transcript_of (body : option (gmap string string)) : option string :=
  d ← body; d !! "text".

(** What the body of the [try] in [analyze_video_with_groq] evaluates to when
    none of its steps fails:
    [json.loads(response.json()["choices"][0]["text"])]. *)
Definition candidates_of (env : environment)
    (body : option (gmap string (list (gmap string string)))) : option (list segment) :=
  d ← body; choices ← d !! "choices"; choice ← head choices;
  text ← choice !! "text"; json_loads env text.

(** [rendered] lists what the render of each candidate returns, in candidate
    order. *)
Definition renders_to (env : environment) (video_path transcript : string)
    (segments : list segment) (rendered : list short) : Prop :=
  Forall2
    (fun '(idx, sg) s =>
       forall w, fst (process_segment video_path sg transcript idx env w) = Ok s)
    (PyList.enumerate 0 segments) rendered.

(** The members of [l] in the order [as_completed] delivers them. *)
Definition in_delivery_order {A} (order : list nat) (l : list A) : list A :=
  omap (fun i : nat => l !! i) order.

(** The floats [1/n, 2/n, ..., n/n] *)
Definition progress_values (n : nat) : list Q :=
  map (fun k : nat => (PyFloat.nearest_double (Z.of_nat k) (Z.of_nat n))) (seq 1 n).

(** The callback applied to each value of [xs] in turn. *)
Definition call_each (update_progress : Q -> M unit) (xs : list Q) : M unit :=
  for_each xs (fun x _ => update_progress x) tt.

(** [w'] has the queue, the slot and the slot log of [w]. *)
Definition same_slot (w w' : machine) : Prop :=
  slot_log w' = slot_log w
  /\ processing (session w') = processing (session w)
  /\ queue (session w') = queue (session w).

(** [m] touches neither the queue nor the slot, however it ends. *)
Definition frame {A} (m : M A) : Prop :=
  forall env w, same_slot w (snd (m env w)).

(** The job [submit_job] adds in a run, if any. *)
Definition submitted (env : environment) : list job :=
  if button env && bool_decide (text_input env ≠ EmptyString)
  then [Job (uuid4 env) (text_input env)] else [].

(** The slot is held for [j], taken from the head of a queue whose tail is
    [rest], since the log was [log0]. *)
Definition slot_held (j : job) (rest : list job) (log0 : list slot_event)
    (w : machine) : Prop :=
  queue (session w) = rest
  /\ slot_log w = log0 ++ [Acquire (id j)]
  /\ processing (session w) = Some (id j).

(** How a pass that took [j] ends: released if and only if no exception
    stopped the script. *)
Definition job_post (j : job) (rest : list job) (log0 : list slot_event)
    (out : result unit * machine) : Prop :=
  queue (session out.2) = rest
  /\ slot_log out.2 =
     log0 ++ Acquire (id j) :: (if is_Ok out.1 then [Release] else [])
  /\ processing (session out.2) = (if is_Ok out.1 then None else Some (id j)).

(** The slot automaton: [Acquire] is legal only on an idle slot, [Release]
    only on a held one.  [slot_after s log] is the slot's content after the
    writes of [log], if all of them were legal. *)
Fixpoint slot_after (s : option string) (log : list slot_event)
    : option (option string) :=
  match log with
  | [] => Some s
  | Acquire j :: log' =>
      match s with None => slot_after (Some j) log' | Some _ => None end
  | Release :: log' =>
      match s with Some _ => slot_after None log' | None => None end
  end.

(** Jobs in the processing state after the writes of [log]: acquisitions
    minus releases. *)
Fixpoint in_flight (log : list slot_event) : Z :=
  match log with
  | [] => 0
  | Acquire _ :: log' => in_flight log' + 1
  | Release :: log' => in_flight log' - 1
  end.

(** The job ids that took the slot, in order. *)
Definition acquired (log : list slot_event) : list string :=
  omap (fun e => match e with Acquire j => Some j | Release => None end) log.

(** All writes so far were legal and the slot holds what the automaton
    holds. *)
Definition disciplined (w : machine) : Prop :=
  slot_after None (slot_log w) = Some (processing (session w)).

(** ** Vocabulary of the further properties *)

(** The machine [w] after the subprocess invocations [cmds]. *)
Definition add_commands (w : machine) (cmds : list (list arg)) : machine :=
  Machine (session w) (commands w ++ cmds) (ui w) (slot_log w).

(** The first ffmpeg invocation of [process_segment], the one that cuts the
    clip out of the video. *)
Definition clip_command (video_path : string) (start end_ : Q) (idx : nat)
    : list arg :=
  [AStr "ffmpeg"; AStr "-i"; AStr video_path; AStr "-ss"; ANum start;
   AStr "-to"; ANum end_; AStr "-c"; AStr "copy";
   AStr ("short_" +:+ pretty (idx + 1)%nat +:+ ".mp4")].

(** The ffmpeg invocation of [generate_subtitles]. *)
Definition audio_command (video_path : string) : list arg :=
  [AStr "ffmpeg"; AStr "-i"; AStr video_path; AStr "-ar"; AStr "16000";
   AStr "-ac"; AStr "1"; AStr (PyStr.replace video_path ".mp4" ".wav")].

(** [futures] lists how the render of each candidate ends, with a value or
    with an exception, in candidate order. *)
Definition render_outcomes (env : environment) (video_path transcript : string)
    (segments : list segment) (futures : list (result short)) : Prop :=
  Forall2
    (fun '(idx, sg) r =>
       forall w, fst (process_segment video_path sg transcript idx env w) = r)
    (PyList.enumerate 0 segments) futures.

(** [m] changes nothing but the command log and the UI. *)
Definition quiet {A} (m : M A) : Prop :=
  forall env w,
    session (snd (m env w)) = session w /\ slot_log (snd (m env w)) = slot_log w.

(** [m] returns. *)
Definition returns {A} (m : M A) : Prop :=
  forall env w, is_Ok (fst (m env w)) = true.

(** During a pass over job [j]: the queue is down to [rest], the result
    store is still [R] and the slot holds [j]. *)
Definition pass_held (j : job) (rest : list job)
    (R : gmap string (option job_result)) (w : machine) : Prop :=
  session w = SessionState rest R (Some (id j)).

(** How a pass that took [j] leaves the session state: with some outcome
    stored under the job's id and the slot free when the script went on, with
    the store untouched and the slot held when an exception stopped it. *)
Definition pass_post (j : job) (rest : list job)
    (R : gmap string (option job_result)) (out : result unit * machine) : Prop :=
  match out.1 with
  | Ok _ => exists v, session out.2 = SessionState rest (<[id j := v]> R) None
  | Raise _ => session out.2 = SessionState rest R (Some (id j))
  end.



(** [m] runs no subprocess. *)
Definition keeps_commands {A} (m : M A) : Prop :=
  forall env w, commands (snd (m env w)) = commands w.

(** ** Concrete sessions *)

Module Examples.

Definition candidate (start end_ score : Q) : segment :=
  {[ "start" := start; "end" := end_; "viral_score" := score ]}.

Definition whisper_reply (text : string) : http (gmap string string) :=
  Response (Some {[ "text" := text ]}).

Definition groq_reply (text : string)
    : http (gmap string (list (gmap string string))) :=
  Response (Some {[ "choices" := [ {[ "text" := text ]} ] ]}).

(** A run in which every collaborator works; the scoring reply decodes to
    [segments] and the render tasks finish in [order]. *)
Definition working (url job_id : string) (segments : list segment)
    (order : list nat) : environment :=
  Environment url true job_id "/tmp/tmpk3v9" (fun _ => true) true (fun _ => true)
    (whisper_reply ("first line" +:+ PyStr.nl +:+ "second line"))
    (groq_reply "[...]") (fun _ => Some segments) order.

(** The same with a video pytube cannot fetch. *)
Definition unavailable (url job_id : string) : environment :=
  Environment url true job_id "/tmp/tmpk3v9" (fun _ => false) true (fun _ => true)
    (whisper_reply "text") (groq_reply "[]") (fun _ => Some []) [].

(** The same with a scoring reply that is not JSON. *)
Definition undecodable (url job_id : string) : environment :=
  Environment url true job_id "/tmp/tmpk3v9" (fun _ => true) true (fun _ => true)
    (whisper_reply "text") (Response None) (fun _ => None) [].

Definition tied : list segment := [candidate 0 10 50; candidate 10 20 50].

Definition three : list segment :=
  [candidate 0 10 40; candidate 10 20 90; candidate 20 30 10].

Definition short_n (n : string) (score : Q) : short :=
  Short ("short_" +:+ n +:+ "_subtitled.mp4") score.

End Examples.

Module Cases.

(** A candidate with bounds and no score. *)
Definition unscored (start end_ : Q) : segment :=
  {[ "start" := start; "end" := end_ ]}.

(** A candidate with neither bound. *)
Definition unbounded (score : Q) : segment := {[ "viral_score" := score ]}.

Definition middle_unscored : list segment :=
  [Examples.candidate 0 10 40; unscored 10 20; Examples.candidate 20 30 10].

(** A run in which the transcription service cannot be reached. *)
Definition offline (url job_id : string) : environment :=
  Environment url true job_id "/tmp/tmpk3v9" (fun _ => true) true (fun _ => true)
    Unreachable (Examples.groq_reply "[]") (fun _ => Some []) [].

(** A run on a machine without ffmpeg. *)
Definition no_ffmpeg (url job_id : string) : environment :=
  Environment url true job_id "/tmp/tmpk3v9" (fun _ => true) false (fun _ => true)
    (Examples.whisper_reply "text") (Examples.groq_reply "[]") (fun _ => Some []) [].

(** A run in which ffmpeg leaves no file behind. *)
Definition no_files (url job_id : string) (segments : list segment)
    (order : list nat) : environment :=
  Environment url true job_id "/tmp/tmpk3v9" (fun _ => true) true (fun _ => false)
    (Examples.whisper_reply "text") (Examples.groq_reply "[...]")
    (fun _ => Some segments) order.

(** A visit of the page without a click. *)
Definition visit (url job_id : string) : environment :=
  Environment url false job_id "/tmp/tmpk3v9" (fun _ => true) true (fun _ => true)
    (Examples.whisper_reply "text") (Examples.groq_reply "[]") (fun _ => Some []) [].

End Cases.

(** * Properties *)

(** ** Running the monad *)

Lemma bind_Ok {A B} (m : M A) (k : A -> M B) env w a w' :
  m env w = (Ok a, w') -> (m ≫= k) env w = k a env w'.
Proof. intros H. unfold mbind, M_bind, bind. now rewrite H. Qed.

Lemma bind_Raise {A B} (m : M A) (k : A -> M B) env w e w' :
  m env w = (Raise e, w') -> (m ≫= k) env w = (Raise e, w').
Proof. intros H. unfold mbind, M_bind, bind. now rewrite H. Qed.

Lemma bind_assoc {A B C} (m : M A) (f : A -> M B) (g : B -> M C) env w :
  ((m ≫= f) ≫= g) env w = (m ≫= fun a => f a ≫= g) env w.
Proof.
  unfold mbind, M_bind, bind. now destruct (m env w) as [[a|e] w'].
Qed.

Lemma bind_ext_l {A B} (m m' : M A) (k : A -> M B) env w :
  m env w = m' env w -> (m ≫= k) env w = (m' ≫= k) env w.
Proof. intros H. unfold mbind, M_bind, bind. now rewrite H. Qed.

Ltac unfold_M :=
  unfold mbind, M_bind, bind, mret, M_ret, ret, raise, ask, lift, emit,
    get_session, put_session in *.

(** ** Caption text *)

Lemma slice_to_length n s :
  String.length (PyStr.slice_to n s) = Nat.min n (String.length s).
Proof.
  revert s. induction n as [|n IH]; intros [|c s]; simpl; auto.
Qed.

Lemma slice_to_get n s i :
  String.get i (PyStr.slice_to n s) =
  if decide (i < n)%nat then String.get i s else None.
Proof.
  revert s i. induction n as [|n IH]; intros s i.
  - destruct (decide (i < 0)%nat); [lia | now destruct s].
  - destruct s as [|c s]; [now destruct (decide (i < S n)%nat) |].
    destruct i as [|i]; cbn [PyStr.slice_to String.get].
    + destruct (decide (0 < S n)%nat); [reflexivity | lia].
    + rewrite IH.
      destruct (decide (i < n)%nat), (decide (S i < S n)%nat);
        try reflexivity; lia.
Qed.

Lemma prefix_newline c s :
  String.prefix PyStr.nl (String c s) = Ascii.eqb c PyStr.newline.
Proof.
  unfold PyStr.nl. cbn [String.prefix].
  destruct (ascii_dec PyStr.newline c) as [<- | Hne].
  - rewrite Ascii.eqb_refl. now destruct s.
  - symmetry. apply Ascii.eqb_neq. congruence.
Qed.

Lemma replace_newline_scan s :
  PyStr.replace_scan PyStr.nl PyStr.sp 0 s =
  match s with
  | EmptyString => EmptyString
  | String c s' =>
      String (flatten_char c) (PyStr.replace_scan PyStr.nl PyStr.sp 0 s')
  end.
Proof.
  destruct s as [|c s]; [reflexivity |].
  cbn [PyStr.replace_scan]. rewrite prefix_newline. unfold flatten_char.
  destruct (Ascii.eqb c PyStr.newline); reflexivity.
Qed.

Lemma replace_newline_length s :
  String.length (PyStr.replace s PyStr.nl PyStr.sp) = String.length s.
Proof.
  change (PyStr.replace s PyStr.nl PyStr.sp)
    with (PyStr.replace_scan PyStr.nl PyStr.sp 0 s).
  induction s as [|c s IH]; [reflexivity |].
  rewrite replace_newline_scan. simpl. now rewrite IH.
Qed.

Lemma replace_newline_get s i :
  String.get i (PyStr.replace s PyStr.nl PyStr.sp) =
  flatten_char <$> String.get i s.
Proof.
  change (PyStr.replace s PyStr.nl PyStr.sp)
    with (PyStr.replace_scan PyStr.nl PyStr.sp 0 s).
  revert i. induction s as [|c s IH]; intros i; [reflexivity |].
  rewrite replace_newline_scan. destruct i as [|i]; simpl; [reflexivity |].
  apply IH.
Qed.

Lemma flatten_char_not_newline c : flatten_char c <> PyStr.newline.
Proof.
  unfold flatten_char. destruct (Ascii.eqb c PyStr.newline) eqn:E.
  - discriminate.
  - now apply Ascii.eqb_neq.
Qed.

Lemma process_segment_Ok video_path (sg : segment) transcript idx env w s w' :
  process_segment video_path sg transcript idx env w = (Ok s, w') ->
  exists start end_ score,
    sg !! "start" = Some start /\ sg !! "end" = Some end_ /\
    sg !! "viral_score" = Some score /\ ffmpeg_on_path env = true /\
    s = Short ("short_" +:+ pretty (idx + 1)%nat +:+ "_subtitled.mp4") score /\
    w' = Machine (session w)
           (commands w ++
            [[AStr "ffmpeg"; AStr "-i"; AStr video_path; AStr "-ss";
              ANum start; AStr "-to"; ANum end_; AStr "-c"; AStr "copy";
              AStr ("short_" +:+ pretty (idx + 1)%nat +:+ ".mp4")];
             drawtext_command (caption_of transcript) idx])
           (ui w) (slot_log w).
Proof.
  unfold process_segment, getitem, subprocess_run. unfold_M.
  destruct (sg !! "start") as [a|]; [| discriminate].
  destruct (sg !! "end") as [b|]; [| discriminate].
  destruct (ffmpeg_on_path env); [| discriminate]. cbn.
  destruct (sg !! "viral_score") as [c|]; [| discriminate].
  intros [= <- <-]. exists a, b, c. repeat split; try reflexivity.
  now rewrite <- app_assoc.
Qed.

(** C9.  The caption burned into a rendered segment is the transcript cut to
    its first 200 characters with each newline turned into a space: it has
    [min 200 (len transcript)] characters, its i-th character is the
    transcript's i-th character (a space where that is a newline), it holds
    no newline, and it is the text of the drawtext filter that
    [process_segment] hands to ffmpeg. *)
Theorem caption_truncated_and_flattened (transcript : string) :
  String.length (caption_of transcript) = Nat.min 200 (String.length transcript)
  /\ (String.length (caption_of transcript) <= 200)%nat
  /\ (forall i,
        String.get i (caption_of transcript) =
        if decide (i < 200)%nat then flatten_char <$> String.get i transcript
        else None)
  /\ (forall i, String.get i (caption_of transcript) <> Some PyStr.newline)
  /\ (forall video_path (sg : segment) idx env w s w',
        process_segment video_path sg transcript idx env w = (Ok s, w') ->
        last (commands w') = Some (drawtext_command (caption_of transcript) idx)).
Proof.
  assert (Hget : forall i,
             String.get i (caption_of transcript) =
             if decide (i < 200)%nat then flatten_char <$> String.get i transcript
             else None).
  { intros i. unfold caption_of. rewrite replace_newline_get, slice_to_get.
    now case_decide. }
  assert (Hlen : String.length (caption_of transcript)
                 = Nat.min 200 (String.length transcript)).
  { unfold caption_of. now rewrite replace_newline_length, slice_to_length. }
  split; [exact Hlen |]. split; [lia |]. split; [exact Hget |]. split.
  - intros i. rewrite Hget. case_decide; [| discriminate].
    destruct (String.get i transcript) as [c|]; [| discriminate].
    simpl. intros [= Hc]. now apply flatten_char_not_newline in Hc.
  - intros video_path sg idx env w s w' H.
    apply process_segment_Ok in H as (a & b & c & _ & _ & _ & _ & _ & ->).
    simpl. now rewrite last_app.
Qed.

(** ** Collaborator boundaries *)

Lemma generate_subtitles_response env w video_path body :
  ffmpeg_on_path env = true ->
  readable env (PyStr.replace video_path ".mp4" ".wav") = true ->
  whisper_post env = Response body ->
  fst (generate_subtitles video_path env w) =
  Ok (default sentinel (transcript_of body)).
Proof.
  intros Hff Hrd Hpost.
  unfold generate_subtitles, subprocess_run, try_except, getitem. unfold_M.
  rewrite Hff, Hrd, Hpost. cbn.
  destruct body as [d|]; cbn; [| reflexivity].
  destruct (d !! "text"); reflexivity.
Qed.

(** C8.  Once the transcription service has answered, [generate_subtitles]
    returns normally: the text of the reply when the reply parses and has a
    ["text"] entry, and the literal ["Transcript not available."]
    otherwise. *)
Theorem generate_subtitles_never_raises_on_reply env w video_path body :
  ffmpeg_on_path env = true ->
  readable env (PyStr.replace video_path ".mp4" ".wav") = true ->
  whisper_post env = Response body ->
  (forall text, transcript_of body = Some text ->
     fst (generate_subtitles video_path env w) = Ok text)
  /\ (transcript_of body = None ->
     fst (generate_subtitles video_path env w) = Ok "Transcript not available.").
Proof.
  intros Hff Hrd Hpost.
  rewrite (generate_subtitles_response env w video_path body Hff Hrd Hpost).
  split.
  - now intros text ->.
  - now intros ->.
Qed.

Lemma analyze_video_with_groq_run transcript env w :
  analyze_video_with_groq transcript env w =
  (match groq_post env with
   | Unreachable => Raise ConnectionError
   | Response body => Ok (default [] (candidates_of env body))
   end, w).
Proof.
  unfold analyze_video_with_groq, try_except, getitem, getitem0, candidates_of.
  unfold_M.
  destruct (groq_post env) as [|body]; [reflexivity |].
  destruct body as [d|]; cbn; [| reflexivity].
  destruct (d !! "choices") as [[|choice choices]|]; cbn; try reflexivity.
  destruct (choice !! "text") as [text|]; cbn; [| reflexivity].
  destruct (json_loads env text); reflexivity.
Qed.

(** C7 (amended).  A scoring reply that cannot be decoded does not make
    [analyze_video_with_groq] raise: the failure is caught inside the
    function, which returns the empty list, as the transcription boundary
    returns its sentinel.  Only a failure of the HTTP call itself
    propagates. *)
Theorem analyze_video_with_groq_boundary transcript env w :
  (groq_post env = Unreachable ->
     fst (analyze_video_with_groq transcript env w) = Raise ConnectionError)
  /\ (forall body, groq_post env = Response body ->
        (candidates_of env body = None ->
           fst (analyze_video_with_groq transcript env w) = Ok [])
        /\ (forall segments, candidates_of env body = Some segments ->
           fst (analyze_video_with_groq transcript env w) = Ok segments)).
Proof.
  rewrite analyze_video_with_groq_run. cbn [fst]. split.
  - now intros ->.
  - intros body ->. split.
    + now intros ->.
    + now intros segments ->.
Qed.

(** ** The descending stable sort *)

Section Sorting.
  Context {A : Type} (key : A -> Q).

Lemma insert_desc_perm x l : Permutation (PyList.insert_desc key x l) (x :: l).
Proof.
  induction l as [|y l IH]; simpl; [reflexivity |].
  destruct (Qle_bool (key y) (key x)); [reflexivity |].
  rewrite IH. apply perm_swap.
Qed.

Lemma sorted_reverse_perm l : Permutation (PyList.sorted_reverse key l) l.
Proof.
  induction l as [|x l IH]; simpl; [reflexivity |].
  rewrite insert_desc_perm. now constructor.
Qed.

Lemma sorted_reverse_length l : length (PyList.sorted_reverse key l) = length l.
Proof. apply Permutation_length, sorted_reverse_perm. Qed.

Lemma insert_desc_sorted x l :
  StronglySorted (desc key) l -> StronglySorted (desc key) (PyList.insert_desc key x l).
Proof.
  induction 1 as [|y l Hs IH Hall]; simpl.
  - repeat constructor.
  - destruct (Qle_bool (key y) (key x)) eqn:E.
    + apply Qle_bool_iff in E. constructor; [now constructor |].
      constructor; [exact E |].
      eapply List.Forall_impl; [| exact Hall].
      intros z Hz. unfold desc in *. lra.
    + assert (Hlt : (key x < key y)%Q).
      { apply Qnot_le_lt. intros Hle. apply Qle_bool_iff in Hle. congruence. }
      constructor; [exact IH |].
      eapply Permutation_Forall; [symmetry; apply insert_desc_perm |].
      constructor; [unfold desc; lra | exact Hall].
Qed.

Lemma sorted_reverse_sorted l : StronglySorted (desc key) (PyList.sorted_reverse key l).
Proof.
  induction l as [|x l IH]; simpl; [constructor |].
  now apply insert_desc_sorted.
Qed.

Lemma insert_desc_with_key v x l :
  with_key key v (PyList.insert_desc key x l) = with_key key v (x :: l).
Proof.
  induction l as [|y l IH]; [reflexivity |].
  cbn [PyList.insert_desc].
  destruct (Qle_bool (key y) (key x)) eqn:E; [reflexivity |].
  change (with_key key v (y :: PyList.insert_desc key x l))
    with (if Qeq_bool (key y) v
          then y :: with_key key v (PyList.insert_desc key x l)
          else with_key key v (PyList.insert_desc key x l)).
  rewrite IH. unfold with_key. cbn [List.filter].
  destruct (Qeq_bool (key y) v) eqn:Ey; [| reflexivity].
  destruct (Qeq_bool (key x) v) eqn:Ex; [| reflexivity].
  apply Qeq_bool_iff in Ey, Ex.
  assert (Hle : (key y <= key x)%Q) by lra.
  apply Qle_bool_iff in Hle. congruence.
Qed.

(** Stability: elements with equal keys keep the order they had. *)
Lemma sorted_reverse_stable v l :
  with_key key v (PyList.sorted_reverse key l) = with_key key v l.
Proof.
  induction l as [|x l IH]; [reflexivity |].
  cbn [PyList.sorted_reverse foldr].
  change (foldr (PyList.insert_desc key) [] l) with (PyList.sorted_reverse key l).
  rewrite insert_desc_with_key. unfold with_key in *. cbn [List.filter].
  now rewrite IH.
Qed.

Lemma distinct_keys_In l a b :
  distinct_keys key l -> In a l -> In b l -> (key a == key b)%Q -> a = b.
Proof.
  intros Hd Ha Hb Hk.
  apply list_elem_of_In, list_elem_of_lookup in Ha as [i Hi].
  apply list_elem_of_In, list_elem_of_lookup in Hb as [j Hj].
  assert (i = j) by (eapply Hd; eauto). congruence.
Qed.

(** A descending arrangement of elements with distinct keys is unique. *)
Lemma desc_sorted_unique l1 l2 :
  StronglySorted (desc key) l1 -> StronglySorted (desc key) l2 -> Permutation l1 l2 ->
  (forall a b, In a l1 -> In b l1 -> (key a == key b)%Q -> a = b) ->
  l1 = l2.
Proof.
  intros Hs1. revert l2.
  induction Hs1 as [|a l1 Hs1 IH Ha]; intros l2 Hs2 Hp Hinj.
  - now apply Permutation_nil in Hp.
  - destruct Hs2 as [|b l2 Hs2 Hb].
    + symmetry in Hp. now apply Permutation_nil in Hp.
    + assert (Hab : a = b).
      { assert (Hbin : In b (a :: l1)).
        { eapply Permutation_in; [symmetry; exact Hp | now left]. }
        assert (Hain : In a (b :: l2)).
        { eapply Permutation_in; [exact Hp | now left]. }
        apply Hinj; [now left | exact Hbin |].
        assert (key b <= key a)%Q.
        { destruct Hbin as [-> | Hin]; [lra |].
          rewrite List.Forall_forall in Ha. exact (Ha b Hin). }
        assert (key a <= key b)%Q.
        { destruct Hain as [-> | Hin]; [lra |].
          rewrite List.Forall_forall in Hb. exact (Hb a Hin). }
        lra. }
      subst b. f_equal. apply IH; [exact Hs2 | |].
      * eapply Permutation_cons_inv; exact Hp.
      * intros x y Hx Hy. apply Hinj; now right.
Qed.

Lemma sorted_reverse_order_independent l1 l2 :
  Permutation l1 l2 -> distinct_keys key l1 ->
  PyList.sorted_reverse key l1 = PyList.sorted_reverse key l2.
Proof.
  intros Hp Hd. apply desc_sorted_unique.
  - apply sorted_reverse_sorted.
  - apply sorted_reverse_sorted.
  - now rewrite !sorted_reverse_perm.
  - intros a b Ha Hb. apply (distinct_keys_In l1); [exact Hd | |].
    + eapply Permutation_in; [apply sorted_reverse_perm | exact Ha].
    + eapply Permutation_in; [apply sorted_reverse_perm | exact Hb].
Qed.

End Sorting.

(** ** The parallel render coordinator *)

Lemma enumerate_length {A} k (l : list A) :
  length (PyList.enumerate k l) = length l.
Proof. revert k. induction l; intros k; simpl; auto. Qed.

Lemma renders_to_length env video_path transcript segments rendered :
  renders_to env video_path transcript segments rendered ->
  length rendered = length segments.
Proof.
  intros H. apply Forall2_length in H. now rewrite enumerate_length in H.
Qed.

Lemma submit_run {A} (task : M A) env w :
  submit task env w = (Ok (task env w).1, (task env w).2).
Proof. unfold submit. now destruct (task env w). Qed.

Lemma submit_all_run env video_path transcript segments : forall k rendered w,
  Forall2
    (fun '(idx, sg) s =>
       forall w, fst (process_segment video_path sg transcript idx env w) = Ok s)
    (PyList.enumerate k segments) rendered ->
  exists w1,
    ui w1 = ui w /\
    comprehension
      (fun '(idx, sg) => submit (process_segment video_path sg transcript idx))
      (PyList.enumerate k segments) env w
    = (Ok (map Ok rendered), w1).
Proof.
  induction segments as [|sg segments IH]; intros k rendered w H.
  - inversion H; subst. now exists w.
  - cbn [PyList.enumerate] in H. inversion H as [|? s ? rest Hs Hrest]; subst.
    cbn [PyList.enumerate comprehension].
    erewrite bind_Ok by apply submit_run. rewrite (Hs w).
    destruct (process_segment video_path sg transcript k env w) as [r w'] eqn:Hrun.
    pose proof (Hs w) as Hr. rewrite Hrun in Hr. cbn in Hr. subst r.
    apply process_segment_Ok in Hrun
      as (a & b & c & _ & _ & _ & _ & _ & Hw').
    destruct (IH (S k) rest w' Hrest) as (w1 & Hui & Hw1).
    exists w1. split; [now rewrite Hui, Hw' |].
    cbn [snd]. now erewrite bind_Ok by exact Hw1.
Qed.

Lemma in_delivery_order_map {A B} (f : A -> B) order (l : list A) :
  in_delivery_order order (map f l) = map f (in_delivery_order order l).
Proof.
  unfold in_delivery_order. induction order as [|i order IH]; [reflexivity |].
  cbn [omap list_omap]. change (map f l) with (f <$> l).
  rewrite list_lookup_fmap. change (f <$> l) with (map f l). rewrite IH.
  now destruct (l !! i).
Qed.

Lemma in_delivery_order_seq {A} (l : list A) : forall k pre,
  length pre = k ->
  in_delivery_order (seq k (length l)) (pre ++ l) = l.
Proof.
  unfold in_delivery_order.
  induction l as [|x l IH]; intros k pre Hk; [reflexivity |].
  cbn [length seq omap list_omap].
  rewrite lookup_app_r, Hk, Nat.sub_diag by lia. cbn. f_equal.
  rewrite (cons_middle x pre l), app_assoc. apply IH.
  rewrite length_app. cbn. lia.
Qed.

Lemma in_delivery_order_perm {A} order (l : list A) :
  Permutation order (seq 0 (length l)) ->
  Permutation (in_delivery_order order l) l.
Proof.
  intros Hp. unfold in_delivery_order. rewrite Hp.
  pose proof (in_delivery_order_seq l 0 [] eq_refl) as E.
  unfold in_delivery_order in E. cbn [app] in E. now rewrite E.
Qed.

Lemma in_delivery_order_nil {A} order :
  in_delivery_order order (@nil A) = [].
Proof. induction order; [reflexivity | assumption]. Qed.

Lemma collect_loop (update_progress : Q -> M unit) total :
  total <> 0%nat -> forall (l : list short) k acc env w,
  for_each (PyList.enumerate k (map Ok l))
    (fun '(count, future) shorts =>
       r ← lift future;
       let shorts := shorts ++ [r] in
       x ← truediv count total;
       update_progress x;;
       mret shorts)
    acc env w
  = (call_each update_progress
       (map (fun c : nat => (PyFloat.nearest_double (Z.of_nat c) (Z.of_nat total)))
            (seq k (length l))) ≫= fun _ => mret (acc ++ l)) env w.
Proof.
  intros Htotal l.
  match goal with |- context [for_each _ ?b _ _ _ = _] => set (body := b) end.
  match goal with |- context [map ?v (seq _ _)] => set (value := v) end.
  induction l as [|r l IH]; intros k acc env w.
  - cbn. unfold_M. now rewrite app_nil_r.
  - cbn [map PyList.enumerate for_each length seq call_each].
    assert (Hbody : body (k, Ok r) acc env w =
                    match update_progress (value k) env w with
                    | (Ok _, w') => (Ok (acc ++ [r]), w')
                    | (Raise e, w') => (Raise e, w')
                    end).
    { subst body value. cbn beta iota. unfold truediv.
      destruct total as [|n]; [congruence |]. unfold_M.
      now destruct (update_progress _ env w) as [[[]|e] w']. }
    destruct (update_progress (value k) env w) as [[[]|e] w'] eqn:Hcb.
    + erewrite bind_Ok by exact Hbody. rewrite IH.
      unfold call_each. cbn [for_each].
      rewrite (bind_assoc (update_progress (value k))).
      erewrite (bind_Ok (update_progress (value k))) by exact Hcb.
      now rewrite <- app_assoc.
    + erewrite bind_Raise by exact Hbody.
      rewrite (bind_assoc (update_progress (value k))).
      now erewrite (bind_Raise (update_progress (value k))) by exact Hcb.
Qed.

Lemma as_completed_run {A} (futures : list (result A)) env w :
  as_completed futures env w =
  (Ok (in_delivery_order (delivery_order env) futures), w).
Proof. reflexivity. Qed.

(** With every render succeeding, the coordinator submits all tasks, then
    calls the callback on the floats [1/N, ..., N/N] in turn and returns the
    shorts, collected in delivery order, sorted by score. *)
Lemma create_shorts_parallel_run env w video_path transcript segments rendered :
  renders_to env video_path transcript segments rendered ->
  Permutation (delivery_order env) (seq 0 (length segments)) ->
  exists w1,
    ui w1 = ui w /\
    forall update_progress,
      create_shorts_parallel video_path segments transcript update_progress env w
      = (call_each update_progress (progress_values (length segments)) ≫=
           fun _ => mret (PyList.sorted_reverse viral_score
                            (in_delivery_order (delivery_order env) rendered)))
          env w1.
Proof.
  intros Hr Hp.
  pose proof (renders_to_length _ _ _ _ _ Hr) as Hlen.
  destruct (submit_all_run env video_path transcript segments 0 rendered w Hr)
    as (w1 & Hui & Hw1).
  exists w1. split; [exact Hui |]. intros update_progress.
  unfold create_shorts_parallel.
  erewrite bind_Ok by exact Hw1.
  erewrite bind_Ok by apply as_completed_run.
  rewrite in_delivery_order_map.
  assert (Hn : length (in_delivery_order (delivery_order env) rendered)
               = length segments).
  { rewrite <- Hlen in Hp |- *.
    apply Permutation_length, in_delivery_order_perm, Hp. }
  destruct segments as [|sg segments].
  - destruct rendered; [| discriminate].
    rewrite in_delivery_order_nil. reflexivity.
  - erewrite bind_ext_l by (apply collect_loop; discriminate).
    rewrite Hn, bind_assoc. unfold progress_values.
    unfold mbind, M_bind, bind.
    now destruct (call_each _ _ env w1) as [[[]|e] w2].
Qed.

(** *** Progress values *)

Lemma progress_values_length n : length (progress_values n) = n.
Proof. unfold progress_values. now rewrite length_map, length_seq. Qed.

Lemma progress_values_lookup n k :
  (1 <= k <= n)%nat ->
  progress_values n !! (k - 1)%nat =
  Some (PyFloat.nearest_double (Z.of_nat k) (Z.of_nat n)).
Proof.
  intros Hk. unfold progress_values.
  change (map ?f ?l) with (f <$> l). rewrite list_lookup_fmap.
  rewrite lookup_seq_lt by lia. cbn. do 3 f_equal. lia.
Qed.

(** *** Float quotients *)

Lemma round_half_even_error n d :
  (0 < d)%Z ->
  (- d <= 2 * (PyFloat.round_half_even n d * d - n) <= d)%Z.
Proof.
  intros Hd. unfold PyFloat.round_half_even.
  pose proof (Z.div_mod n d ltac:(lia)) as Hn.
  pose proof (Z.mod_pos_bound n d Hd) as Hr.
  set (q := (n / d)%Z) in *. set (r := (n mod d)%Z) in *.
  rewrite (Z.mul_comm d q) in Hn. clearbody q r.
  destruct (2 * r ?= d)%Z eqn:E.
  - apply Z.compare_eq in E. destruct (Z.even q); lia.
  - rewrite Z.compare_lt_iff in E. lia.
  - rewrite Z.compare_gt_iff in E. lia.
Qed.

Lemma binade_below_one p q : (0 < p < q)%Z -> (PyFloat.binade p q <= -1)%Z.
Proof.
  intros H. unfold PyFloat.binade.
  assert (Hl : (Z.log2 p <= Z.log2 q)%Z) by (apply Z.log2_le_mono; lia).
  destruct (p * 2 ^ Z.max 0 (- (Z.log2 p - Z.log2 q))
            <? q * 2 ^ Z.max 0 (Z.log2 p - Z.log2 q))%Z eqn:E; [lia |].
  apply Z.ltb_ge in E.
  assert (Z.log2 p - Z.log2 q <> 0)%Z; [| lia].
  intros H0. rewrite H0 in E. change (- 0)%Z with 0%Z in E.
  rewrite Z.max_id, Z.pow_0_r in E. lia.
Qed.

(** A quotient of equal ints is the float 1.0. *)
Lemma nearest_double_one p : (0 < p)%Z -> PyFloat.nearest_double p p = 1%Q.
Proof.
  intros Hp. unfold PyFloat.nearest_double.
  replace ((p <=? 0)%Z || (p <=? 0)%Z) with false
    by (symmetry; apply orb_false_iff; split; apply Z.leb_gt; exact Hp).
  assert (Hb : PyFloat.binade p p = 0%Z).
  { unfold PyFloat.binade. rewrite Z.sub_diag. change (- 0)%Z with 0%Z.
    now rewrite Z.ltb_irrefl. }
  rewrite Hb. change (52 - 0)%Z with 52%Z. change (0 <=? 52)%Z with true.
  cbv iota.
  assert (Hm : PyFloat.round_half_even (p * 2 ^ 52) p = (2 ^ 52)%Z).
  { unfold PyFloat.round_half_even.
    rewrite (Z.mul_comm p), Z.div_mul, Z.mod_mul by lia.
    replace (2 * 0 ?= p)%Z with Lt by (symmetry; apply Z.compare_lt_iff; lia).
    reflexivity. }
  rewrite Hm. transitivity (Qred 1); [| reflexivity].
  apply Qred_complete. vm_compute. reflexivity.
Qed.

(** A quotient below 1 is rounded by at most [2^-54]. *)
Lemma nearest_double_error p q :
  (0 < p < q)%Z ->
  ((p # Z.to_pos q) - PyFloat.half_ulp <= PyFloat.nearest_double p q
   /\ PyFloat.nearest_double p q <= (p # Z.to_pos q) + PyFloat.half_ulp)%Q.
Proof.
  intros H. unfold PyFloat.nearest_double, PyFloat.half_ulp.
  replace ((p <=? 0)%Z || (q <=? 0)%Z) with false
    by (symmetry; apply orb_false_iff; split; apply Z.leb_gt; lia).
  pose proof (binade_below_one p q H) as Hb.
  set (s := (52 - PyFloat.binade p q)%Z).
  assert (Hs : (53 <= s)%Z) by (unfold s; lia).
  replace (0 <=? s)%Z with true by (symmetry; apply Z.leb_le; lia).
  rewrite Qred_correct.
  pose proof (round_half_even_error (p * 2 ^ s) q ltac:(lia)) as Hm.
  set (m := PyFloat.round_half_even (p * 2 ^ s) q) in *.
  assert (HT : (2 ^ 53 <= 2 ^ s)%Z) by (apply Z.pow_le_mono_r; lia).
  set (T := (2 ^ s)%Z) in *. clearbody m T.
  unfold Qle, Qminus, Qplus, Qopp. cbn [Qnum Qden].
  rewrite !Pos2Z.inj_mul, !Z2Pos.id by lia.
  change (2 ^ 53)%Z with 9007199254740992%Z in HT.
  split; nia.
Qed.

(** Below [2^53] parts, neighbouring quotients round to different floats. *)
Lemma nearest_double_lt a b n :
  (0 < a < b)%Z -> (b <= n)%Z -> (n < 2 ^ 53)%Z ->
  (PyFloat.nearest_double a n < PyFloat.nearest_double b n)%Q.
Proof.
  intros Hab Hbn Hn.
  pose proof (nearest_double_error a n ltac:(lia)) as [_ Ha].
  assert (Hgap : ((a # Z.to_pos n) + (1 # Z.to_pos n) <= (b # Z.to_pos n))%Q).
  { unfold Qle, Qplus. cbn [Qnum Qden].
    rewrite !Pos2Z.inj_mul, !Z2Pos.id by lia. nia. }
  assert (Hstep : ((1 # 9007199254740992) < (1 # Z.to_pos n))%Q).
  { unfold Qlt. cbn [Qnum Qden]. rewrite Z2Pos.id by lia.
    change (2 ^ 53)%Z with 9007199254740992%Z in Hn. lia. }
  unfold PyFloat.half_ulp in *.
  destruct (Z.eq_dec b n) as [-> | Hne].
  - rewrite (nearest_double_one n) by lia.
    assert (Hone : ((n # Z.to_pos n) == 1)%Q).
    { unfold Qeq. cbn [Qnum Qden]. rewrite Z2Pos.id by lia. lia. }
    lra.
  - pose proof (nearest_double_error b n ltac:(lia)) as [Hb _].
    unfold PyFloat.half_ulp in Hb. lra.
Qed.

(** The values CPython gives for [1/3], [2/3], [1/10] and [10/3]. *)
Lemma nearest_double_samples :
  PyFloat.nearest_double 1 3 = (6004799503160661 # 18014398509481984)%Q
  /\ PyFloat.nearest_double 2 3 = (6004799503160661 # 9007199254740992)%Q
  /\ PyFloat.nearest_double 1 10 = (3602879701896397 # 36028797018963968)%Q
  /\ PyFloat.nearest_double 10 3 = (7505999378950827 # 2251799813685248)%Q.
Proof. vm_compute. now repeat split. Qed.

(** Why the bound: with [2^54] parts the last two quotients are both 1.0. *)
Lemma nearest_double_collapse :
  PyFloat.nearest_double (2 ^ 54 - 1) (2 ^ 54) = 1%Q
  /\ PyFloat.nearest_double (2 ^ 54) (2 ^ 54) = 1%Q.
Proof. vm_compute. now split. Qed.

Lemma Qmake_to_pos (k n : Z) :
  (0 < n)%Z -> (k # Z.to_pos n == inject_Z k / inject_Z n)%Q.
Proof. intros Hn. rewrite Qmake_Qdiv. now rewrite Z2Pos.id. Qed.

(** The k-th progress value is within [2^-54] of k/n. *)
Lemma progress_value_close (n k : nat) :
  (1 <= k <= n)%nat ->
  (inject_Z (Z.of_nat k) / inject_Z (Z.of_nat n) - PyFloat.half_ulp
   <= PyFloat.nearest_double (Z.of_nat k) (Z.of_nat n)
   /\ PyFloat.nearest_double (Z.of_nat k) (Z.of_nat n)
      <= inject_Z (Z.of_nat k) / inject_Z (Z.of_nat n) + PyFloat.half_ulp)%Q.
Proof.
  intros Hk. rewrite <- (Qmake_to_pos (Z.of_nat k) (Z.of_nat n)) by lia.
  destruct (decide (k = n)) as [-> | Hne].
  - rewrite nearest_double_one by lia.
    assert (Hone : ((Z.of_nat n # Z.to_pos (Z.of_nat n)) == 1)%Q).
    { unfold Qeq. cbn [Qnum Qden]. rewrite Z2Pos.id by lia. lia. }
    unfold PyFloat.half_ulp. lra.
  - apply nearest_double_error. lia.
Qed.

Lemma progress_values_from_increasing (n start len : nat) :
  (Z.of_nat n < 2 ^ 53)%Z -> (1 <= start)%nat -> (start + len <= S n)%nat ->
  StronglySorted Qlt
    (map (fun k : nat => (PyFloat.nearest_double (Z.of_nat k) (Z.of_nat n)))
         (seq start len)).
Proof.
  intros Hn. revert start.
  induction len as [|len IH]; intros start Hs Hl; cbn [seq map]; constructor.
  - apply IH; lia.
  - apply List.Forall_forall. intros y Hy.
    apply in_map_iff in Hy as (j & <- & Hj). apply in_seq in Hj.
    apply nearest_double_lt; lia.
Qed.

Lemma progress_values_increasing n :
  (Z.of_nat n < 2 ^ 53)%Z -> StronglySorted Qlt (progress_values n).
Proof.
  intros Hn. apply progress_values_from_increasing; [exact Hn | lia | lia].
Qed.

Lemma progress_values_last n :
  n <> 0%nat -> last (progress_values n) = Some 1%Q.
Proof.
  intros Hn. destruct n as [|n]; [congruence |].
  unfold progress_values. rewrite seq_S, map_app. cbn [map].
  rewrite last_snoc. f_equal. apply nearest_double_one. lia.
Qed.

(** *** Callbacks *)

Lemma call_each_total (update_progress : Q -> M unit) xs env w :
  (forall x env w, fst (update_progress x env w) = Ok tt) ->
  fst (call_each update_progress xs env w) = Ok tt.
Proof.
  intros Hcb. unfold call_each. revert w.
  induction xs as [|x xs IH]; intros w; [reflexivity |].
  cbn [for_each]. specialize (Hcb x env w).
  destruct (update_progress x env w) as [[[]|e] w'] eqn:E; [| discriminate].
  erewrite bind_Ok by exact E. apply IH.
Qed.

Lemma call_each_record xs env w :
  call_each (fun x => emit (Progress x)) xs env w =
  (Ok tt, Machine (session w) (commands w) (ui w ++ map Progress xs) (slot_log w)).
Proof.
  unfold call_each. revert w.
  induction xs as [|x xs IH]; intros w.
  - cbn. rewrite app_nil_r. now destruct w.
  - cbn [for_each]. erewrite bind_Ok by reflexivity. rewrite IH. cbn.
    now rewrite <- app_assoc.
Qed.

(** C4.  With N >= 1 candidates whose renders all succeed, the callback is
    invoked exactly N times, after the tasks were submitted: whatever the
    callback is, the run is these N calls followed by the return; a callback
    that records its argument ends with exactly N values recorded.  The k-th
    value is the float [k / N], the one nearest to k/N and within [2^-54] of
    it; the last value is exactly 1.0; and the values increase strictly for
    every N below [2^53], as any list that fits in memory has. *)
Theorem progress_callback_gets_k_over_N
    env w video_path transcript segments rendered :
  segments <> [] ->
  renders_to env video_path transcript segments rendered ->
  Permutation (delivery_order env) (seq 0 (length segments)) ->
  let N := length segments in
  (exists w1, forall update_progress,
      create_shorts_parallel video_path segments transcript update_progress env w
      = (call_each update_progress (progress_values N) ≫=
           fun _ => mret (PyList.sorted_reverse viral_score
                            (in_delivery_order (delivery_order env) rendered)))
          env w1)
  /\ ui (snd (create_shorts_parallel video_path segments transcript
                (fun x => emit (Progress x)) env w))
     = ui w ++ map Progress (progress_values N)
  /\ length (progress_values N) = N
  /\ (forall k, (1 <= k <= N)%nat ->
        progress_values N !! (k - 1)%nat =
        Some (PyFloat.nearest_double (Z.of_nat k) (Z.of_nat N))
        /\ (inject_Z (Z.of_nat k) / inject_Z (Z.of_nat N) - PyFloat.half_ulp
            <= PyFloat.nearest_double (Z.of_nat k) (Z.of_nat N)
            /\ PyFloat.nearest_double (Z.of_nat k) (Z.of_nat N)
               <= inject_Z (Z.of_nat k) / inject_Z (Z.of_nat N)
                  + PyFloat.half_ulp)%Q)
  /\ ((Z.of_nat N < 2 ^ 53)%Z -> StronglySorted Qlt (progress_values N))
  /\ last (progress_values N) = Some 1%Q.
Proof.
  intros Hne Hr Hp N.
  destruct (create_shorts_parallel_run env w video_path transcript segments
              rendered Hr Hp) as (w1 & Hui & Hrun).
  split; [now exists w1 |]. split.
  - rewrite Hrun. unfold mbind, M_bind, bind. rewrite call_each_record. cbn.
    now rewrite Hui.
  - split; [apply progress_values_length |].
    split.
    { intros k Hk. split; [now apply progress_values_lookup |].
      now apply progress_value_close. }
    split; [apply progress_values_increasing |].
    apply progress_values_last. subst N. now destruct segments.
Qed.

(** C3 (amended).  With every render succeeding and a callback that
    returns, the coordinator returns all N rendered shorts in descending
    order of score; shorts of equal score stand in the order in which
    [as_completed] delivered their futures.  When no two candidates have the
    same score the result is the same for every order of delivery. *)
Theorem shorts_sorted_ties_in_delivery_order
    env w video_path transcript segments rendered update_progress :
  renders_to env video_path transcript segments rendered ->
  Permutation (delivery_order env) (seq 0 (length segments)) ->
  (forall x env w, fst (update_progress x env w) = Ok tt) ->
  exists out,
    fst (create_shorts_parallel video_path segments transcript update_progress env w)
    = Ok out
    /\ length out = length segments
    /\ Permutation out rendered
    /\ StronglySorted (desc viral_score) out
    /\ (forall v, with_key viral_score v out =
                  with_key viral_score v
                    (in_delivery_order (delivery_order env) rendered))
    /\ (distinct_keys viral_score rendered ->
        out = PyList.sorted_reverse viral_score rendered).
Proof.
  intros Hr Hp Hcb.
  pose proof (renders_to_length _ _ _ _ _ Hr) as Hlen.
  destruct (create_shorts_parallel_run env w video_path transcript segments
              rendered Hr Hp) as (w1 & _ & Hrun).
  assert (Hperm : Permutation
                    (in_delivery_order (delivery_order env) rendered) rendered).
  { apply in_delivery_order_perm. now rewrite Hlen. }
  eexists. split.
  - rewrite Hrun. unfold mbind, M_bind, bind.
    pose proof (call_each_total update_progress
                  (progress_values (length segments)) env w1 Hcb) as Hc.
    destruct (call_each _ _ env w1) as [[[]|e] w2]; [reflexivity | discriminate].
  - split.
    { rewrite sorted_reverse_length, <- Hlen. now apply Permutation_length. }
    split; [now rewrite sorted_reverse_perm |].
    split; [apply sorted_reverse_sorted |].
    split; [intros v; apply sorted_reverse_stable |].
    intros Hd. symmetry. apply sorted_reverse_order_independent; [| exact Hd].
    now symmetry.
Qed.

(** C10.  On an empty segment list the coordinator returns the empty list
    and leaves the machine as it was, whatever the callback is: the callback
    is not run and [count / total] is not evaluated. *)
Theorem create_shorts_parallel_empty
    env w video_path transcript (update_progress : Q -> M unit) :
  create_shorts_parallel video_path [] transcript update_progress env w = (Ok [], w).
Proof.
  unfold create_shorts_parallel. cbn [PyList.enumerate comprehension].
  erewrite bind_Ok by reflexivity.
  erewrite bind_Ok by apply as_completed_run.
  now rewrite in_delivery_order_nil.
Qed.

(** ** The job queue *)

(** *** Computations that leave the queue and the slot alone *)

Lemma same_slot_refl w : same_slot w w.
Proof. now repeat split. Qed.

Lemma same_slot_trans w1 w2 w3 :
  same_slot w1 w2 -> same_slot w2 w3 -> same_slot w1 w3.
Proof.
  intros (? & ? & ?) (? & ? & ?). repeat split; congruence.
Qed.

Lemma frame_ret {A} (a : A) : frame (mret a).
Proof. intros env w. apply same_slot_refl. Qed.

Lemma frame_raise {A} e : frame (@raise A e).
Proof. intros env w. apply same_slot_refl. Qed.

Lemma frame_ask {A} (f : environment -> A) : frame (ask f).
Proof. intros env w. apply same_slot_refl. Qed.

Lemma frame_lift {A} (r : result A) : frame (lift r).
Proof. intros env w. apply same_slot_refl. Qed.

Lemma frame_emit e : frame (emit e).
Proof. intros env w. now repeat split. Qed.

Lemma frame_bind {A B} (m : M A) (k : A -> M B) :
  frame m -> (forall a, frame (k a)) -> frame (m ≫= k).
Proof.
  intros Hm Hk env w. specialize (Hm env w).
  unfold mbind, M_bind, bind. destruct (m env w) as [[a|e] w']; cbn in *.
  - eapply same_slot_trans; [exact Hm | apply Hk].
  - exact Hm.
Qed.

Lemma frame_try_except {A} (body handler : M A) :
  frame body -> frame handler -> frame (try_except body handler).
Proof.
  intros Hb Hh env w. specialize (Hb env w).
  unfold try_except. destruct (body env w) as [[a|e] w']; cbn in *.
  - exact Hb.
  - eapply same_slot_trans; [exact Hb | apply Hh].
Qed.

Lemma frame_subprocess_run args : frame (subprocess_run args).
Proof.
  intros env w. unfold subprocess_run.
  destruct (ffmpeg_on_path env); now repeat split.
Qed.

Lemma frame_getitem {V} (d : gmap string V) k : frame (getitem d k).
Proof. unfold getitem. destruct (d !! k); [apply frame_ret | apply frame_raise]. Qed.

Lemma frame_getitem0 {V} (l : list V) : frame (getitem0 l).
Proof. destruct l; [apply frame_raise | apply frame_ret]. Qed.

Lemma frame_submit {A} (task : M A) : frame task -> frame (submit task).
Proof. intros H env w. rewrite submit_run. apply H. Qed.

Lemma frame_for_each {A S} (l : list A) (body : A -> S -> M S) s :
  (forall x s, frame (body x s)) -> frame (for_each l body s).
Proof.
  intros Hb. revert s. induction l as [|x l IH]; intros s; cbn [for_each].
  - apply frame_ret.
  - apply frame_bind; [apply Hb | exact IH].
Qed.

Lemma frame_comprehension {A B} (f : A -> M B) l :
  (forall x, frame (f x)) -> frame (comprehension f l).
Proof.
  intros Hf. induction l as [|x l IH]; cbn [comprehension].
  - apply frame_ret.
  - apply frame_bind; [apply Hf | intros y].
    apply frame_bind; [exact IH | intros ys; apply frame_ret].
Qed.

Lemma frame_truediv count total : frame (truediv count total).
Proof. destruct total; [apply frame_raise | apply frame_ret]. Qed.

Lemma frame_set_result k v : frame (set_result k v).
Proof. intros env w. now repeat split. Qed.

Create HintDb frame.
#[local] Hint Resolve frame_ret frame_raise frame_ask frame_lift frame_emit
  frame_subprocess_run frame_getitem frame_getitem0 frame_truediv
  frame_set_result : frame.

Ltac frame_step :=
  match goal with
  | |- _ => progress cbv beta zeta
  | |- frame (mbind _ _) => apply frame_bind; [| intros ?]
  | |- frame (try_except _ _) => apply frame_try_except
  | |- frame (submit _) => apply frame_submit
  | |- frame (for_each _ _ _) => apply frame_for_each; intros ? ?
  | |- frame (comprehension _ _) => apply frame_comprehension; intros ?
  | |- context [let '(_, _) := ?p in _] => is_var p; destruct p
  | |- frame (match ?x with _ => _ end) => destruct x
  | |- frame _ => solve [auto with frame]
  end.

Ltac frame_tac := repeat frame_step.

Lemma frame_download_youtube_video u d : frame (download_youtube_video u d).
Proof. unfold download_youtube_video. frame_tac. Qed.

Lemma frame_generate_subtitles video_path : frame (generate_subtitles video_path).
Proof. unfold generate_subtitles. frame_tac. Qed.

Lemma frame_analyze_video_with_groq transcript :
  frame (analyze_video_with_groq transcript).
Proof. unfold analyze_video_with_groq. frame_tac. Qed.

Lemma frame_process_segment video_path sg transcript idx :
  frame (process_segment video_path sg transcript idx).
Proof. unfold process_segment. frame_tac. Qed.

Lemma frame_as_completed {A} (futures : list (result A)) :
  frame (as_completed futures).
Proof. unfold as_completed. frame_tac. Qed.

Lemma frame_create_shorts_parallel video_path segments transcript update_progress :
  (forall x, frame (update_progress x)) ->
  frame (create_shorts_parallel video_path segments transcript update_progress).
Proof.
  intros Hcb. unfold create_shorts_parallel.
  pose proof frame_process_segment. pose proof @frame_as_completed.
  frame_tac.
Qed.

Lemma frame_create_zip l : frame (create_zip l).
Proof. unfold create_zip. frame_tac. Qed.

(** *** One pass over the queue *)

Lemma submit_job_run env w :
  exists w',
    submit_job env w = (Ok tt, w')
    /\ queue (session w') = queue (session w) ++ submitted env
    /\ processing (session w') = processing (session w)
    /\ slot_log w' = slot_log w.
Proof.
  unfold submit_job, submitted, queue_append. unfold_M. cbn.
  destruct (button env && bool_decide (text_input env ≠ EmptyString)); cbn.
  - eexists. split; [reflexivity |]. now repeat split.
  - exists w. rewrite app_nil_r. now repeat split.
Qed.

Lemma process_queue_skip env w :
  processing (session w) <> None \/ queue (session w) = [] ->
  process_queue env w = (Ok tt, w).
Proof.
  intros H. unfold process_queue.
  erewrite bind_Ok by reflexivity.
  destruct H as [H | H].
  - now rewrite (bool_decide_eq_false_2 _ H).
  - rewrite H, andb_comm. reflexivity.
Qed.

Lemma held_step {A} (m : M A) (k : A -> M unit) j rest log0 env w :
  frame m -> slot_held j rest log0 w ->
  (forall a w', slot_held j rest log0 w' -> job_post j rest log0 (k a env w')) ->
  job_post j rest log0 ((m ≫= k) env w).
Proof.
  intros Hm (Hq & Hl & Hp) Hk. destruct (Hm env w) as (Fl & Fp & Fq).
  unfold mbind, M_bind, bind. destruct (m env w) as [[a|e] w']; cbn in *.
  - apply Hk. repeat split; congruence.
  - repeat split; cbn; congruence.
Qed.

Lemma held_release j rest log0 env w :
  slot_held j rest log0 w -> job_post j rest log0 (set_processing None env w).
Proof.
  intros (Hq & Hl & Hp). repeat split; cbn; [exact Hq |].
  rewrite Hl. now rewrite <- app_assoc.
Qed.

Lemma queue_pop0_run env w j rest :
  queue (session w) = j :: rest ->
  queue_pop0 env w =
  (Ok j, Machine (SessionState rest (results (session w)) (processing (session w)))
           (commands w) (ui w) (slot_log w)).
Proof. intros H. unfold queue_pop0. unfold_M. now rewrite H. Qed.

Lemma process_queue_take env w j rest :
  processing (session w) = None -> queue (session w) = j :: rest ->
  job_post j rest (slot_log w) (process_queue env w).
Proof.
  intros Hp Hq. unfold process_queue.
  erewrite bind_Ok by reflexivity.
  rewrite (bool_decide_eq_true_2 _ Hp), bool_decide_eq_true_2 by now rewrite Hq.
  cbn [andb].
  erewrite bind_Ok by (apply queue_pop0_run; exact Hq).
  erewrite bind_Ok by reflexivity.
  apply held_step; [apply frame_emit | now repeat split | intros _ w1 H1].
  apply held_step; [apply frame_ask | exact H1 | clear w1 H1; intros d w1 H1].
  apply held_step;
    [apply frame_download_youtube_video | exact H1 | clear w1 H1; intros vp w1 H1].
  apply held_step;
    [apply frame_generate_subtitles | exact H1 | clear w1 H1; intros t w1 H1].
  apply held_step;
    [apply frame_analyze_video_with_groq | exact H1 | clear w1 H1; intros sgs w1 H1].
  apply held_step; [| exact H1 | intros _ w2 H2; now apply held_release].
  pose proof frame_create_shorts_parallel. pose proof frame_create_zip.
  frame_tac.
Qed.

(** *** The single-worker discipline *)

Lemma slot_after_app s l1 l2 :
  slot_after s (l1 ++ l2) = slot_after s l1 ≫= fun s' => slot_after s' l2.
Proof.
  revert s. induction l1 as [|[j|] l1 IH]; intros s; cbn; [reflexivity | |];
    destruct s; cbn; auto.
Qed.

Lemma slot_after_in_flight log : forall s s' n,
  slot_after s log = Some s' ->
  (0 <= (match s with Some _ => 1 | None => 0 end) + in_flight (take n log) <= 1)%Z.
Proof.
  induction log as [|[j|] log IH]; intros s s' n H.
  - rewrite take_nil. cbn. destruct s; lia.
  - destruct n as [|n]; [cbn; destruct s; lia |].
    cbn in H. destruct s; [discriminate |].
    specialize (IH _ _ n H). cbn in *. lia.
  - destruct n as [|n]; [cbn; destruct s; lia |].
    cbn in H. destruct s; [| discriminate].
    specialize (IH _ _ n H). cbn in *. lia.
Qed.

Lemma script_run env w :
  exists w1,
    submit_job env w = (Ok tt, w1)
    /\ queue (session w1) = queue (session w) ++ submitted env
    /\ processing (session w1) = processing (session w)
    /\ slot_log w1 = slot_log w
    /\ script env w = process_queue env w1.
Proof.
  destruct (submit_job_run env w) as (w1 & Hrun & Hq & Hp & Hl).
  exists w1. repeat split; try assumption.
  unfold script. now erewrite bind_Ok by exact Hrun.
Qed.

(** What one run of the page does to the queue and the slot. *)
Lemma rerun_cases w env :
  let w' := rerun w env in
  (processing (session w') = processing (session w)
   /\ slot_log w' = slot_log w
   /\ queue (session w') = queue (session w) ++ submitted env
   /\ (processing (session w) <> None \/ queue (session w) ++ submitted env = []))
  \/ (exists j rest released,
        processing (session w) = None
        /\ queue (session w) ++ submitted env = j :: rest
        /\ queue (session w') = rest
        /\ slot_log w' =
           slot_log w ++ Acquire (id j) :: (if released : bool then [Release] else [])
        /\ processing (session w') = if released then None else Some (id j)).
Proof.
  unfold rerun.
  destruct (script_run env w) as (w1 & _ & Hq & Hp & Hl & ->).
  destruct (processing (session w)) as [p|] eqn:Ep.
  - left. rewrite process_queue_skip by (left; congruence). cbn.
    repeat split; try assumption. now left.
  - destruct (queue (session w) ++ submitted env) as [|j rest] eqn:Eq.
    + left. rewrite process_queue_skip by now right. cbn.
      repeat split; try assumption. now right.
    + right. pose proof (process_queue_take env w1 j rest Hp Hq) as (Gq & Gl & Gp).
      exists j, rest, (is_Ok (process_queue env w1).1).
      rewrite Hl in Gl. now repeat split.
Qed.

Lemma rerun_disciplined w env : disciplined w -> disciplined (rerun w env).
Proof.
  unfold disciplined. intros H.
  destruct (rerun_cases w env)
    as [(Hp & Hl & _) | (j & rest & released & Hp & _ & _ & Hl & Hp')].
  - now rewrite Hl, Hp.
  - rewrite Hl, Hp', slot_after_app, H, Hp. cbn. now destruct released.
Qed.

Lemma run_session_from_disciplined envs : forall w,
  disciplined w -> disciplined (foldl rerun w envs).
Proof.
  induction envs as [|env envs IH]; intros w H; [exact H |].
  cbn [foldl]. apply IH. now apply rerun_disciplined.
Qed.

(** C2.  Over every session, the writes to the processing variable follow
    the slot automaton (a job id is written only over an idle slot, idle only
    over a held one) and the variable holds what the automaton holds; hence
    after every write the number of jobs in the processing state is 0 or 1.
    A pass over the queue that finds the slot held dequeues nothing and
    writes nothing. *)
Theorem at_most_one_job_processing (envs : list environment) :
  let w := run_session envs in
  slot_after None (slot_log w) = Some (processing (session w))
  /\ (forall n, (0 <= in_flight (take n (slot_log w)) <= 1)%Z)
  /\ (forall env w0, processing (session w0) <> None ->
        process_queue env w0 = (Ok tt, w0)).
Proof.
  intros w.
  assert (H : disciplined w).
  { apply run_session_from_disciplined. reflexivity. }
  split; [exact H |]. split.
  - intros n. exact (slot_after_in_flight _ None _ n H).
  - intros env w0 Hbusy. apply process_queue_skip. now left.
Qed.

(** *** First in, first out *)

Lemma rerun_fifo w env :
  acquired (slot_log (rerun w env)) ++ map id (queue (session (rerun w env)))
  = acquired (slot_log w) ++ map id (queue (session w)) ++ map id (submitted env).
Proof.
  destruct (rerun_cases w env)
    as [(_ & Hl & Hq & _) | (j & rest & released & _ & Hq & Hq' & Hl & _)].
  - now rewrite Hl, Hq, map_app.
  - rewrite Hl, Hq'. unfold acquired. rewrite omap_app. cbn [omap list_omap].
    replace (omap _ (if released then [Release] else [])) with (@nil string)
      by now destruct released.
    rewrite <- map_app, Hq. cbn. now rewrite <- app_assoc.
Qed.

Lemma run_session_from_fifo envs : forall w,
  acquired (slot_log (foldl rerun w envs))
    ++ map id (queue (session (foldl rerun w envs)))
  = acquired (slot_log w) ++ map id (queue (session w))
    ++ map id (concat (map submitted envs)).
Proof.
  induction envs as [|env envs IH]; intros w; cbn [foldl map concat].
  - now rewrite app_nil_r.
  - rewrite IH, app_assoc, rerun_fifo, map_app, <- !app_assoc. reflexivity.
Qed.

(** C5.  A submission puts its job at the tail of the queue, and a pass
    that finds the slot idle and the queue non-empty removes the head of the
    queue and gives it the slot.  Over a whole session, the jobs that took
    the slot followed by the jobs still queued are the submitted jobs in
    submission order. *)
Theorem queue_is_fifo :
  (forall env w,
     button env = true -> text_input env <> EmptyString ->
     queue (session (snd (submit_job env w)))
     = queue (session w) ++ [Job (uuid4 env) (text_input env)])
  /\ (forall env w j rest,
        processing (session w) = None -> queue (session w) = j :: rest ->
        let w' := snd (process_queue env w) in
        queue (session w') = rest
        /\ exists tail, slot_log w' = slot_log w ++ Acquire (id j) :: tail)
  /\ (forall envs,
        let w := run_session envs in
        acquired (slot_log w) ++ map id (queue (session w))
        = map id (concat (map submitted envs))).
Proof.
  split; [| split].
  - intros env w Hb Hu.
    destruct (submit_job_run env w) as (w' & -> & Hq & _). cbn [snd].
    rewrite Hq. unfold submitted. rewrite Hb, bool_decide_eq_true_2 by exact Hu.
    reflexivity.
  - intros env w j rest Hp Hq w'.
    destruct (process_queue_take env w j rest Hp Hq) as (Gq & Gl & _).
    split; [exact Gq | eexists; exact Gl].
  - intros envs. apply (run_session_from_fifo envs fresh).
Qed.

(** *** Outcomes of a pass *)

Lemma download_youtube_video_run u d env w :
  download_youtube_video u d env w =
  (if pytube_ok env u then Ok (PyStr.path_join d "video.mp4")
   else Raise VideoUnavailable, w).
Proof.
  unfold download_youtube_video. unfold_M. now destruct (pytube_ok env u).
Qed.

(** C6.  When acquisition and transcription return and the scoring step
    returns the empty list, the pass stores [None] under the job's id, shows
    the failure message and frees the slot. *)
Theorem empty_candidates_store_failure_marker env w j rest body :
  processing (session w) = None ->
  queue (session w) = j :: rest ->
  pytube_ok env (url j) = true ->
  ffmpeg_on_path env = true ->
  readable env
    (PyStr.replace (PyStr.path_join (mkdtemp env) "video.mp4") ".mp4" ".wav") = true ->
  whisper_post env = Response body ->
  (forall transcript w0, fst (analyze_video_with_groq transcript env w0) = Ok []) ->
  let w' := snd (process_queue env w) in
  results (session w') !! id j = Some None
  /\ last (ui w') = Some (Error "Failed to generate shorts.")
  /\ processing (session w') = None.
Proof.
  intros Hp Hq Hyt Hff Hrd Hpost Hempty.
  unfold process_queue.
  erewrite bind_Ok by reflexivity.
  rewrite (bool_decide_eq_true_2 _ Hp), bool_decide_eq_true_2 by now rewrite Hq.
  cbn [andb].
  erewrite bind_Ok by (apply queue_pop0_run; exact Hq).
  erewrite bind_Ok by reflexivity.
  erewrite bind_Ok by reflexivity.
  erewrite bind_Ok by reflexivity.
  erewrite bind_Ok by (rewrite download_youtube_video_run, Hyt; reflexivity).
  match goal with
  | |- context [mbind _ (generate_subtitles ?vp) env ?w1] =>
      pose proof (generate_subtitles_response env w1 vp body Hff Hrd Hpost) as Ht;
      destruct (generate_subtitles vp env w1) as [r w2] eqn:Egen
  end.
  cbn [fst] in Ht. subst r.
  erewrite bind_Ok by exact Egen.
  set (t := default sentinel (transcript_of body)).
  assert (Han : analyze_video_with_groq t env w2 = (Ok [], w2)).
  { specialize (Hempty t w2). rewrite analyze_video_with_groq_run in Hempty |- *.
    cbn [fst] in Hempty. now rewrite Hempty. }
  erewrite bind_Ok by exact Han.
  unfold set_result, set_processing. unfold_M. cbn -[insert lookup last].
  rewrite lookup_insert_eq, last_snoc. now repeat split.
Qed.

Lemma held_slot_stays_held envs : forall w j,
  processing (session w) = Some j ->
  processing (session (foldl rerun w envs)) = Some j
  /\ slot_log (foldl rerun w envs) = slot_log w
  /\ queue (session (foldl rerun w envs))
     = queue (session w) ++ concat (map submitted envs).
Proof.
  induction envs as [|env envs IH]; intros w j Hj; cbn [foldl map concat].
  - repeat split; try assumption. now rewrite app_nil_r.
  - destruct (rerun_cases w env)
      as [(Hp & Hl & Hq & _) | (? & ? & ? & Hp & _)]; [| congruence].
    destruct (IH (rerun w env) j) as (Gp & Gl & Gq); [congruence |].
    repeat split; [exact Gp | congruence |].
    now rewrite Gq, Hq, <- app_assoc.
Qed.

(** C1 (the code does not do this).  A job whose download raises takes the
    slot and never gives it back: the script stops at the exception with the
    slot held, and no later run of the page, whatever it meets, releases it
    or starts another job; later submissions only queue up. *)
Theorem slot_stays_held_after_failed_download (envs : list environment) :
  let env := Examples.unavailable "https://youtu.be/removed" "job-A" in
  let w1 := rerun fresh env in
  let w := foldl rerun w1 envs in
  fst (script env fresh) = Raise VideoUnavailable
  /\ slot_log w1 = [Acquire "job-A"]
  /\ processing (session w) = Some "job-A"
  /\ slot_log w = [Acquire "job-A"]
  /\ acquired (slot_log w) = ["job-A"]
  /\ queue (session w) = concat (map submitted envs).
Proof.
  intros env w1 w.
  assert (H1 : processing (session w1) = Some "job-A") by reflexivity.
  assert (L1 : slot_log w1 = [Acquire "job-A"]) by reflexivity.
  assert (Q1 : queue (session w1) = []) by reflexivity.
  destruct (held_slot_stays_held envs w1 "job-A" H1) as (Hp & Hl & Hq).
  split; [reflexivity |]. split; [exact L1 |]. split; [exact Hp |].
  fold w in Hl, Hq. rewrite Hl, L1, Hq, Q1.
  now repeat split.
Qed.

(** The same defect on the other failure paths: whenever a pass that took a
    job stops at an exception, the slot is left holding that job. *)
Lemma slot_held_after_any_exception env w j rest e :
  processing (session w) = None -> queue (session w) = j :: rest ->
  fst (process_queue env w) = Raise e ->
  processing (session (snd (process_queue env w))) = Some (id j)
  /\ slot_log (snd (process_queue env w)) = slot_log w ++ [Acquire (id j)].
Proof.
  intros Hp Hq He.
  destruct (process_queue_take env w j rest Hp Hq) as (_ & Gl & Gp).
  rewrite He in Gl, Gp. now split.
Qed.

(** On the paths without exception the slot is released exactly once. *)
Lemma slot_released_once_without_exception env w j rest :
  processing (session w) = None -> queue (session w) = j :: rest ->
  fst (process_queue env w) = Ok tt ->
  processing (session (snd (process_queue env w))) = None
  /\ slot_log (snd (process_queue env w)) = slot_log w ++ [Acquire (id j); Release].
Proof.
  intros Hp Hq He.
  destruct (process_queue_take env w j rest Hp Hq) as (_ & Gl & Gp).
  rewrite He in Gl, Gp. now split.
Qed.

(** ** The theorems at concrete inputs *)

Lemma caption_truncated_and_flattened_witness :
  let transcript := "first line" +:+ PyStr.nl +:+ "second line" in
  let env := Examples.working "https://youtu.be/a" "job-A" Examples.three [2; 0; 1]%nat in
  last (commands (snd (process_segment "v.mp4" (Examples.candidate 0 10 40)
                         transcript 0 env fresh)))
  = Some (drawtext_command (caption_of transcript) 0).
Proof.
  intros transcript env.
  refine (proj2 (proj2 (proj2 (proj2
            (caption_truncated_and_flattened transcript))))
            "v.mp4" (Examples.candidate 0 10 40) 0%nat env fresh
            (Examples.short_n "1" 40) _ _).
  vm_compute. reflexivity.
Defined.

Lemma generate_subtitles_never_raises_on_reply_witness :
  let env := Examples.working "https://youtu.be/a" "job-A" Examples.three [2; 0; 1]%nat in
  fst (generate_subtitles "/tmp/tmpk3v9/video.mp4" env fresh)
  = Ok ("first line" +:+ PyStr.nl +:+ "second line").
Proof.
  intros env.
  refine (proj1 (generate_subtitles_never_raises_on_reply env fresh
                   "/tmp/tmpk3v9/video.mp4"
                   (Some {[ "text" := "first line" +:+ PyStr.nl +:+ "second line" ]})
                   _ _ _) _ _); reflexivity.
Defined.

(** C7, as stated, fails: a scoring reply that is not JSON makes
    [analyze_video_with_groq] return the empty list, not raise. *)
Lemma undecodable_scoring_reply_returns_normally :
  let env := Examples.undecodable "https://youtu.be/a" "job-A" in
  groq_post env = Response None
  /\ candidates_of env None = None
  /\ fst (analyze_video_with_groq "text" env fresh) = Ok []
  /\ ~ (exists e, fst (analyze_video_with_groq "text" env fresh) = Raise e).
Proof.
  intros env. repeat split. intros [e He]. discriminate He.
Qed.

Lemma analyze_video_with_groq_boundary_witness :
  let env := Examples.undecodable "https://youtu.be/a" "job-A" in
  fst (analyze_video_with_groq "text" env fresh) = Ok [].
Proof.
  intros env.
  refine (proj1 (proj2 (analyze_video_with_groq_boundary "text" env fresh)
                   None _) _); reflexivity.
Defined.

Lemma empty_candidates_store_failure_marker_witness :
  let env := Examples.undecodable "https://youtu.be/a" "job-A" in
  let w := snd (submit_job env fresh) in
  let w' := snd (process_queue env w) in
  results (session w') !! "job-A" = Some None
  /\ last (ui w') = Some (Error "Failed to generate shorts.")
  /\ processing (session w') = None.
Proof.
  intros env w.
  refine (empty_candidates_store_failure_marker env w
            (Job "job-A" "https://youtu.be/a") [] (Some {[ "text" := "text" ]})
            _ _ _ _ _ _ _); reflexivity.
Defined.

Lemma at_most_one_job_processing_witness :
  let env := Examples.unavailable "https://youtu.be/removed" "job-A" in
  let w0 := rerun fresh env in
  processing (session w0) <> None
  /\ process_queue (Examples.working "https://youtu.be/b" "job-B" Examples.three [0; 1; 2]%nat) w0
     = (Ok tt, w0).
Proof.
  intros env w0.
  assert (H : processing (session w0) <> None) by (vm_compute; discriminate).
  split; [exact H |].
  exact (proj2 (proj2 (at_most_one_job_processing [])) _ w0 H).
Defined.

Lemma queue_is_fifo_witness :
  let env := Examples.working "https://youtu.be/b" "job-B" Examples.three [0; 1; 2]%nat in
  let w := Machine (SessionState [Job "job-A" "https://youtu.be/a"] ∅ None) [] [] [] in
  queue (session (snd (submit_job env w)))
  = [Job "job-A" "https://youtu.be/a"; Job "job-B" "https://youtu.be/b"]
  /\ queue (session (snd (process_queue env (snd (submit_job env w)))))
     = [Job "job-B" "https://youtu.be/b"].
Proof.
  intros env w. split.
  - refine (proj1 queue_is_fifo env w _ _); [reflexivity | discriminate].
  - refine (proj1 (proj1 (proj2 queue_is_fifo) env (snd (submit_job env w))
                     (Job "job-A" "https://youtu.be/a")
                     [Job "job-B" "https://youtu.be/b"] _ _)); reflexivity.
Defined.

Lemma three_render :
  renders_to
    (Examples.working "https://youtu.be/a" "job-A" Examples.three [2; 0; 1]%nat)
    "/tmp/tmpk3v9/video.mp4" "text" Examples.three
    [Examples.short_n "1" 40; Examples.short_n "2" 90; Examples.short_n "3" 10].
Proof.
  unfold renders_to. cbn [PyList.enumerate Examples.three].
  repeat (constructor; [intros w0; vm_compute; reflexivity |]).
  constructor.
Defined.

Lemma three_complete : Permutation [2; 0; 1]%nat (seq 0 3).
Proof.
  cbn. eapply perm_trans; [apply perm_swap | apply perm_skip, perm_swap].
Defined.

Lemma progress_callback_gets_k_over_N_witness :
  let env := Examples.working "https://youtu.be/a" "job-A" Examples.three [2; 0; 1]%nat in
  ui (snd (create_shorts_parallel "/tmp/tmpk3v9/video.mp4" Examples.three "text"
             (fun x => emit (Progress x)) env fresh))
  = [Progress (6004799503160661 # 18014398509481984);
     Progress (6004799503160661 # 9007199254740992);
     Progress 1]
  /\ StronglySorted Qlt (progress_values 3).
Proof.
  intros env.
  pose proof (progress_callback_gets_k_over_N env fresh
                "/tmp/tmpk3v9/video.mp4" "text" Examples.three _
                ltac:(discriminate) three_render three_complete)
    as (_ & Hui & _ & _ & Hinc & _).
  split; [exact Hui |].
  apply Hinc. vm_compute. reflexivity.
Defined.

Lemma shorts_sorted_ties_in_delivery_order_witness :
  let env := Examples.working "https://youtu.be/a" "job-A" Examples.three [2; 0; 1]%nat in
  let rendered :=
    [Examples.short_n "1" 40; Examples.short_n "2" 90; Examples.short_n "3" 10] in
  exists out,
    fst (create_shorts_parallel "/tmp/tmpk3v9/video.mp4" Examples.three "text"
           (fun x => emit (Progress x)) env fresh) = Ok out
    /\ length out = 3%nat
    /\ Permutation out rendered
    /\ StronglySorted (desc viral_score) out
    /\ (forall v, with_key viral_score v out =
                  with_key viral_score v (in_delivery_order [2; 0; 1]%nat rendered))
    /\ (distinct_keys viral_score rendered ->
        out = PyList.sorted_reverse viral_score rendered).
Proof.
  intros env rendered.
  refine (shorts_sorted_ties_in_delivery_order env fresh
            "/tmp/tmpk3v9/video.mp4" "text" Examples.three rendered
            (fun x => emit (Progress x)) three_render three_complete _).
  intros x env0 w0. reflexivity.
Defined.

(** C3, as stated, fails on ties: two candidates of equal score whose
    futures are delivered in the opposite order, as when the second task is
    the first to finish, are returned in that opposite order. *)
Lemma ties_not_in_candidate_order :
  let env := Examples.working "https://youtu.be/a" "job-A" Examples.tied [1; 0]%nat in
  let first := Examples.short_n "1" 50 in
  let second := Examples.short_n "2" 50 in
  renders_to env "/tmp/tmpk3v9/video.mp4" "text" Examples.tied [first; second]
  /\ Permutation (delivery_order env) (seq 0 (length Examples.tied))
  /\ fst (create_shorts_parallel "/tmp/tmpk3v9/video.mp4" Examples.tied "text"
            (fun x => emit (Progress x)) env fresh) = Ok [second; first]
  /\ with_key viral_score 50 [second; first]
     <> with_key viral_score 50 [first; second].
Proof.
  intros env first second. split; [| split; [| split]].
  - unfold renders_to. cbn [PyList.enumerate Examples.tied].
    repeat (constructor; [intros w0; vm_compute; reflexivity |]).
    constructor.
  - apply perm_swap.
  - vm_compute. reflexivity.
  - vm_compute. discriminate.
Qed.

(** * Further properties *)

(** ** Rendering one segment *)

(** Every way [process_segment] can end. *)
Lemma process_segment_run video_path (sg : segment) transcript idx env w :
  process_segment video_path sg transcript idx env w =
  match sg !! "start", sg !! "end" with
  | None, _ => (Raise (KeyError "start"), w)
  | Some _, None => (Raise (KeyError "end"), w)
  | Some start, Some end_ =>
      if ffmpeg_on_path env
      then
        (match sg !! "viral_score" with
         | Some score =>
             Ok (Short ("short_" +:+ pretty (idx + 1)%nat +:+ "_subtitled.mp4") score)
         | None => Raise (KeyError "viral_score")
         end,
         add_commands w [clip_command video_path start end_ idx;
                         drawtext_command (caption_of transcript) idx])
      else (Raise (FileNotFoundError "ffmpeg"), w)
  end.
Proof.
  unfold process_segment, getitem, subprocess_run, add_commands. unfold_M.
  destruct (sg !! "start") as [a|]; [| reflexivity].
  destruct (sg !! "end") as [b|]; [| reflexivity].
  destruct (ffmpeg_on_path env); [| reflexivity]. cbn.
  rewrite <- app_assoc.
  destruct (sg !! "viral_score") as [c|]; reflexivity.
Qed.

(** X1.  A candidate without a ["start"] or an ["end"] entry makes
    [process_segment] raise [KeyError] for the first missing one before any
    ffmpeg invocation: the machine is left as it was. *)
Theorem process_segment_missing_bound video_path (sg : segment) transcript idx env w :
  sg !! "start" = None \/ sg !! "end" = None ->
  process_segment video_path sg transcript idx env w =
  (Raise (KeyError (if sg !! "start" is None then "start" else "end")), w).
Proof.
  intros H. rewrite process_segment_run.
  destruct (sg !! "start") as [a|]; [| reflexivity].
  destruct H as [H | H]; [discriminate |]. now rewrite H.
Qed.



Lemma process_segment_file video_path (sg : segment) transcript idx env w s :
  fst (process_segment video_path sg transcript idx env w) = Ok s ->
  file s = "short_" +:+ pretty (idx + 1)%nat +:+ "_subtitled.mp4".
Proof.
  rewrite process_segment_run.
  destruct (sg !! "start"), (sg !! "end"), (ffmpeg_on_path env),
    (sg !! "viral_score"); cbn; try discriminate.
  now intros [= <-].
Qed.

Lemma append_length (s t : string) :
  String.length (s +:+ t) = (String.length s + String.length t)%nat.
Proof. induction s as [|c s IH]; simpl; [reflexivity | now rewrite IH]. Qed.

Lemma append_inj_r (s1 s2 t : string) : s1 +:+ t = s2 +:+ t -> s1 = s2.
Proof.
  revert s2. induction s1 as [|c s1 IH]; intros [|d s2] H; [reflexivity | | |].
  - apply (f_equal String.length) in H. rewrite !append_length in H.
    simpl in H. lia.
  - apply (f_equal String.length) in H. rewrite !append_length in H.
    simpl in H. lia.
  - simpl in H. injection H as -> H. f_equal. now apply IH.
Qed.

Lemma output_name_inj (suffix : string) (i j : nat) :
  "short_" +:+ pretty (i + 1)%nat +:+ suffix
  = "short_" +:+ pretty (j + 1)%nat +:+ suffix -> i = j.
Proof.
  intros H. simpl in H. injection H as H.
  change (pretty (i + 1)%nat +:+ suffix = pretty (j + 1)%nat +:+ suffix) in H.
  apply append_inj_r in H. apply pretty_nat_inj in H. lia.
Qed.

(** X4.  Renders of different indices write different files: neither the
    captioned outputs nor the intermediate clips of two tasks coincide. *)
Theorem process_segment_files_distinct video_path (sg sg' : segment) transcript
    i j env w w' s s' :
  i <> j ->
  fst (process_segment video_path sg transcript i env w) = Ok s ->
  fst (process_segment video_path sg' transcript j env w') = Ok s' ->
  file s <> file s'
  /\ (forall a b a' b',
        last (clip_command video_path a b i) <> last (clip_command video_path a' b' j)).
Proof.
  intros Hij Hs Hs'.
  apply process_segment_file in Hs as Hf.
  apply process_segment_file in Hs' as Hf'.
  split.
  - rewrite Hf, Hf'. intros H. now apply output_name_inj in H.
  - intros a b a' b'. cbn. intros [= H]. apply Hij.
    apply (output_name_inj ".mp4"). cbn. now f_equal.
Qed.

(** ** Transcription and packaging *)

(** Every way [generate_subtitles] can end. *)
Lemma generate_subtitles_run video_path env w :
  generate_subtitles video_path env w =
  if ffmpeg_on_path env
  then
    (if readable env (PyStr.replace video_path ".mp4" ".wav")
     then match whisper_post env with
          | Unreachable => Raise ConnectionError
          | Response body => Ok (default sentinel (transcript_of body))
          end
     else Raise (FileNotFoundError (PyStr.replace video_path ".mp4" ".wav")),
     add_commands w [audio_command video_path])
  else (Raise (FileNotFoundError "ffmpeg"), w).
Proof.
  unfold generate_subtitles, subprocess_run, try_except, getitem, add_commands,
    audio_command, transcript_of.
  unfold_M.
  destruct (ffmpeg_on_path env); [| reflexivity]. cbn.
  destruct (readable env _); [| reflexivity].
  destruct (whisper_post env) as [|[d|]]; cbn; try reflexivity.
  destruct (d !! "text"); reflexivity.
Qed.

(** X5.  The sentinel stands only for a reply that cannot be read: when the
    HTTP call to the transcription service itself fails, [generate_subtitles]
    raises, after the audio track was extracted. *)
Theorem generate_subtitles_call_failure_propagates video_path env w :
  ffmpeg_on_path env = true ->
  readable env (PyStr.replace video_path ".mp4" ".wav") = true ->
  whisper_post env = Unreachable ->
  generate_subtitles video_path env w =
  (Raise ConnectionError, add_commands w [audio_command video_path]).
Proof.
  intros Hff Hrd Hpost. rewrite generate_subtitles_run. now rewrite Hff, Hrd, Hpost.
Qed.

(** X6.  Before the request: without ffmpeg [generate_subtitles] raises and
    does nothing; with ffmpeg it runs exactly one command, the extraction of
    the audio track into the video path with [.mp4] replaced by [.wav],
    whatever follows, and raises when that file cannot be opened. *)
Theorem generate_subtitles_audio_step video_path env w :
  (ffmpeg_on_path env = false ->
     generate_subtitles video_path env w = (Raise (FileNotFoundError "ffmpeg"), w))
  /\ (ffmpeg_on_path env = true ->
        snd (generate_subtitles video_path env w)
        = add_commands w [audio_command video_path]
        /\ (readable env (PyStr.replace video_path ".mp4" ".wav") = false ->
            fst (generate_subtitles video_path env w)
            = Raise (FileNotFoundError (PyStr.replace video_path ".mp4" ".wav")))).
Proof.
  rewrite generate_subtitles_run. split.
  - now intros ->.
  - intros ->. split; [reflexivity |]. now intros ->.
Qed.

Lemma create_zip_loop env w (l : list short) :
  for_each l
    (fun short _ =>
       can_read ← ask readable;
       if can_read (file short) : bool then mret tt
       else raise (FileNotFoundError (file short)))
    tt env w
  = (match List.find (fun s => negb (readable env (file s))) l with
     | None => Ok tt
     | Some s => Raise (FileNotFoundError (file s))
     end, w).
Proof.
  induction l as [|s l IH]; [reflexivity |].
  cbn [for_each List.find]. unfold mbind at 1, M_bind, bind.
  unfold mbind at 1, M_bind, bind, ask.
  destruct (readable env (file s)); cbn; [exact IH | reflexivity].
Qed.

(** Every way [create_zip] can end. *)
Lemma create_zip_run env w (l : list short) :
  create_zip l env w =
  (match List.find (fun s => negb (readable env (file s))) l with
   | None => Ok "shorts_bundle.zip"
   | Some s => Raise (FileNotFoundError (file s))
   end, w).
Proof.
  unfold create_zip. unfold mbind, M_bind, bind. rewrite create_zip_loop.
  now destruct (List.find _ l).
Qed.

Lemma find_unreadable_none env (l : list short) :
  Forall (fun s => readable env (file s) = true) l ->
  List.find (fun s => negb (readable env (file s))) l = None.
Proof.
  induction 1 as [|s l Hs _ IH]; [reflexivity |]. cbn. now rewrite Hs.
Qed.

Lemma find_unreadable_first env (pre post : list short) s :
  Forall (fun s => readable env (file s) = true) pre ->
  readable env (file s) = false ->
  List.find (fun s => negb (readable env (file s))) (pre ++ s :: post) = Some s.
Proof.
  intros Hpre Hs. induction Hpre as [|x pre Hx _ IH]; cbn.
  - now rewrite Hs.
  - now rewrite Hx.
Qed.

(** X7.  [create_zip] returns the fixed name ["shorts_bundle.zip"] when every
    short's file can be read, raises [FileNotFoundError] for the first one in
    list order that cannot, and in both cases leaves the machine as it
    was. *)
Theorem create_zip_outcome env w (l : list short) :
  (Forall (fun s => readable env (file s) = true) l ->
     create_zip l env w = (Ok "shorts_bundle.zip", w))
  /\ (forall pre s post,
        l = pre ++ s :: post ->
        Forall (fun s => readable env (file s) = true) pre ->
        readable env (file s) = false ->
        create_zip l env w = (Raise (FileNotFoundError (file s)), w)).
Proof.
  rewrite create_zip_run. split.
  - intros H. now rewrite find_unreadable_none.
  - intros pre s post -> Hpre Hs. now rewrite find_unreadable_first.
Qed.

(** ** A failing render *)

Lemma process_segment_quiet video_path (sg : segment) transcript idx env w :
  session (snd (process_segment video_path sg transcript idx env w)) = session w
  /\ ui (snd (process_segment video_path sg transcript idx env w)) = ui w
  /\ slot_log (snd (process_segment video_path sg transcript idx env w)) = slot_log w.
Proof.
  rewrite process_segment_run.
  destruct (sg !! "start"), (sg !! "end"), (ffmpeg_on_path env); now repeat split.
Qed.

Lemma submit_all_outcomes env video_path transcript segments : forall k futures w,
  Forall2
    (fun '(idx, sg) r =>
       forall w, fst (process_segment video_path sg transcript idx env w) = r)
    (PyList.enumerate k segments) futures ->
  exists w1,
    session w1 = session w /\ ui w1 = ui w /\ slot_log w1 = slot_log w /\
    comprehension
      (fun '(idx, sg) => submit (process_segment video_path sg transcript idx))
      (PyList.enumerate k segments) env w
    = (Ok futures, w1).
Proof.
  induction segments as [|sg segments IH]; intros k futures w H.
  - inversion H; subst. now exists w.
  - cbn [PyList.enumerate] in H. inversion H as [|? r ? rest Hr Hrest]; subst.
    cbn [PyList.enumerate comprehension].
    erewrite bind_Ok by apply submit_run. rewrite (Hr w).
    destruct (process_segment_quiet video_path sg transcript k env w)
      as (Qs & Qu & Ql).
    destruct (IH (S k) rest
                (process_segment video_path sg transcript k env w).2 Hrest)
      as (w1 & Hs & Hu & Hl & Hw1).
    exists w1. repeat split; try congruence.
    now erewrite bind_Ok by exact Hw1.
Qed.

Lemma enumerate_app {A} (l1 l2 : list A) k :
  PyList.enumerate k (l1 ++ l2)
  = PyList.enumerate k l1 ++ PyList.enumerate (k + length l1) l2.
Proof.
  revert k. induction l1 as [|x l1 IH]; intros k; cbn.
  - now rewrite Nat.add_0_r.
  - rewrite IH. do 3 f_equal. lia.
Qed.

Lemma for_each_app {A S} (l1 l2 : list A) (body : A -> S -> M S) s env w :
  for_each (l1 ++ l2) body s env w
  = (for_each l1 body s ≫= for_each l2 body) env w.
Proof.
  revert s w. induction l1 as [|x l1 IH]; intros s w; cbn [app for_each].
  - reflexivity.
  - rewrite bind_assoc.
    destruct (body x s env w) as [[s'|e] w'] eqn:E.
    + erewrite !bind_Ok by exact E. apply IH.
    + now erewrite !bind_Raise by exact E.
Qed.

Lemma progress_values_take n k :
  (k <= n)%nat ->
  take k (progress_values n)
  = map (fun c : nat => (PyFloat.nearest_double (Z.of_nat c) (Z.of_nat n))) (seq 1 k).
Proof.
  intros Hk. unfold progress_values.
  change (map ?f ?l) with (f <$> l). rewrite <- fmap_take. f_equal.
  replace n with (k + (n - k))%nat at 1 by lia.
  now rewrite seq_app, take_app_length'  by now rewrite length_seq.
Qed.

(** How the coordinator runs when [e] is the first exception among the
    futures as delivered, after those of [done]. *)
Lemma create_shorts_parallel_failure_run
    env w video_path transcript segments futures done e rest :
  render_outcomes env video_path transcript segments futures ->
  Permutation (delivery_order env) (seq 0 (length segments)) ->
  in_delivery_order (delivery_order env) futures = map Ok done ++ Raise e :: rest ->
  exists w1,
    session w1 = session w /\ ui w1 = ui w /\
    forall update_progress,
      create_shorts_parallel video_path segments transcript update_progress env w
      = (call_each update_progress
           (take (length done) (progress_values (length segments)))
         ≫= fun _ => raise e) env w1.
Proof.
  intros Hr Hp Hsplit.
  assert (Hlen : length futures = length segments).
  { apply Forall2_length in Hr. now rewrite enumerate_length in Hr. }
  assert (Hn : (length done < length segments)%nat).
  { rewrite <- Hlen in Hp |- *.
    apply in_delivery_order_perm, Permutation_length in Hp.
    rewrite Hsplit, length_app, length_map in Hp. cbn in Hp. lia. }
  destruct (submit_all_outcomes env video_path transcript segments 0 futures w Hr)
    as (w1 & Hs & Hu & _ & Hw1).
  exists w1. split; [exact Hs |]. split; [exact Hu |]. intros update_progress.
  unfold create_shorts_parallel.
  erewrite bind_Ok by exact Hw1.
  erewrite bind_Ok by apply as_completed_run.
  rewrite Hsplit, enumerate_app.
  erewrite bind_ext_l by apply for_each_app.
  rewrite bind_assoc.
  erewrite bind_ext_l by (apply collect_loop; lia).
  rewrite !bind_assoc, progress_values_take by lia.
  destruct (call_each update_progress
              (map (fun c : nat =>
                      (PyFloat.nearest_double (Z.of_nat c) (Z.of_nat (length segments))))
                   (seq 1 (length done))) env w1) as [[[]|e'] w2] eqn:E.
  - rewrite !(bind_Ok _ _ _ _ _ _ E). reflexivity.
  - now rewrite !(bind_Raise _ _ _ _ _ _ E).
Qed.

(** X8.  One failing render fails the batch: when [e] is the first exception
    among the futures in the order [as_completed] delivers them, the
    coordinator raises [e] whatever the other tasks returned, after calling
    the callback once for each future delivered before that one, on the first
    of the floats 1/N, 2/N, ...; nothing but the command log and what the
    callback does changes. *)
Theorem create_shorts_parallel_first_failure
    env w video_path transcript segments futures done e rest :
  render_outcomes env video_path transcript segments futures ->
  Permutation (delivery_order env) (seq 0 (length segments)) ->
  in_delivery_order (delivery_order env) futures = map Ok done ++ Raise e :: rest ->
  (forall update_progress,
     (forall x env w, fst (update_progress x env w) = Ok tt) ->
     fst (create_shorts_parallel video_path segments transcript update_progress env w)
     = Raise e)
  /\ (let w' := snd (create_shorts_parallel video_path segments transcript
                       (fun x => emit (Progress x)) env w) in
      ui w' = ui w ++ map Progress
                        (take (length done) (progress_values (length segments)))
      /\ session w' = session w).
Proof.
  intros Hr Hp Hsplit.
  destruct (create_shorts_parallel_failure_run env w video_path transcript
              segments futures done e rest Hr Hp Hsplit)
    as (w1 & Hs & Hu & Hrun).
  split.
  - intros update_progress Hcb. rewrite Hrun. unfold mbind, M_bind, bind.
    pose proof (call_each_total update_progress
                  (take (length done) (progress_values (length segments)))
                  env w1 Hcb) as Hc.
    destruct (call_each _ _ env w1) as [[[]|e'] w2]; [reflexivity | discriminate].
  - cbn zeta. rewrite Hrun. unfold mbind, M_bind, bind.
    rewrite call_each_record. cbn. now rewrite Hu, Hs.
Qed.

(** ** Helpers and the session state *)

Lemma quiet_ret {A} (a : A) : quiet (mret a).
Proof. now intros env w. Qed.

Lemma quiet_raise {A} e : quiet (@raise A e).
Proof. now intros env w. Qed.

Lemma quiet_ask {A} (f : environment -> A) : quiet (ask f).
Proof. now intros env w. Qed.

Lemma quiet_lift {A} (r : result A) : quiet (lift r).
Proof. now intros env w. Qed.

Lemma quiet_emit e : quiet (emit e).
Proof. now intros env w. Qed.

Lemma quiet_truediv count total : quiet (truediv count total).
Proof. destruct total; [apply quiet_raise | apply quiet_ret]. Qed.

Lemma quiet_bind {A B} (m : M A) (k : A -> M B) :
  quiet m -> (forall a, quiet (k a)) -> quiet (m ≫= k).
Proof.
  intros Hm Hk env w. destruct (Hm env w) as [Hs Hl].
  unfold mbind, M_bind, bind. destruct (m env w) as [[a|e] w']; cbn in *.
  - destruct (Hk a env w') as [Hs' Hl']. split; congruence.
  - now split.
Qed.

Lemma quiet_submit {A} (task : M A) : quiet task -> quiet (submit task).
Proof. intros H env w. rewrite submit_run. apply H. Qed.

Lemma quiet_for_each {A S} (l : list A) (body : A -> S -> M S) s :
  (forall x s, quiet (body x s)) -> quiet (for_each l body s).
Proof.
  intros Hb. revert s. induction l as [|x l IH]; intros s; cbn [for_each].
  - apply quiet_ret.
  - apply quiet_bind; [apply Hb | exact IH].
Qed.

Lemma quiet_comprehension {A B} (f : A -> M B) l :
  (forall x, quiet (f x)) -> quiet (comprehension f l).
Proof.
  intros Hf. induction l as [|x l IH]; cbn [comprehension].
  - apply quiet_ret.
  - apply quiet_bind; [apply Hf | intros y].
    apply quiet_bind; [exact IH | intros ys; apply quiet_ret].
Qed.

Lemma quiet_process_segment video_path sg transcript idx :
  quiet (process_segment video_path sg transcript idx).
Proof.
  intros env w.
  destruct (process_segment_quiet video_path sg transcript idx env w)
    as (Hs & _ & Hl).
  now split.
Qed.

Lemma quiet_create_shorts_parallel video_path segments transcript update_progress :
  (forall x, quiet (update_progress x)) ->
  quiet (create_shorts_parallel video_path segments transcript update_progress).
Proof.
  intros Hcb. unfold create_shorts_parallel.
  apply quiet_bind.
  { apply quiet_comprehension. intros [idx sg].
    apply quiet_submit, quiet_process_segment. }
  intros futures. apply quiet_bind.
  { unfold as_completed. apply quiet_bind; [apply quiet_ask |].
    intros order. apply quiet_ret. }
  intros completed. apply quiet_bind; [| intros shorts; apply quiet_ret].
  apply quiet_for_each. intros [count future] shorts.
  apply quiet_bind; [apply quiet_lift | intros r]. cbv zeta.
  apply quiet_bind; [apply quiet_truediv | intros x].
  apply quiet_bind; [apply Hcb | intros _; apply quiet_ret].
Qed.

Lemma quiet_download_youtube_video u d : quiet (download_youtube_video u d).
Proof. intros env w. now rewrite download_youtube_video_run. Qed.

Lemma quiet_generate_subtitles video_path : quiet (generate_subtitles video_path).
Proof.
  intros env w. rewrite generate_subtitles_run. now destruct (ffmpeg_on_path env).
Qed.

Lemma quiet_analyze_video_with_groq transcript :
  quiet (analyze_video_with_groq transcript).
Proof. intros env w. now rewrite analyze_video_with_groq_run. Qed.

Lemma quiet_create_zip l : quiet (create_zip l).
Proof. intros env w. now rewrite create_zip_run. Qed.

(** X9.  The five helpers never touch [st.session_state], whether they
    return or raise: queue, results and processing slot are after each call
    what they were before (for the coordinator, whenever its callback leaves
    them alone too). *)
Theorem helpers_leave_session_state_alone :
  (forall u d, quiet (download_youtube_video u d))
  /\ (forall video_path, quiet (generate_subtitles video_path))
  /\ (forall transcript, quiet (analyze_video_with_groq transcript))
  /\ (forall video_path segments transcript update_progress,
        (forall x, quiet (update_progress x)) ->
        quiet (create_shorts_parallel video_path segments transcript update_progress))
  /\ (forall l, quiet (create_zip l)).
Proof.
  split; [| split; [| split; [| split]]].
  - apply quiet_download_youtube_video.
  - apply quiet_generate_subtitles.
  - apply quiet_analyze_video_with_groq.
  - apply quiet_create_shorts_parallel.
  - apply quiet_create_zip.
Qed.

(** ** What a pass leaves in the session state *)

Lemma pass_step {A} (m : M A) (k : A -> M unit) j rest R env w :
  quiet m -> pass_held j rest R w ->
  (forall a w', pass_held j rest R w' -> pass_post j rest R (k a env w')) ->
  pass_post j rest R ((m ≫= k) env w).
Proof.
  intros Hm Hw Hk. destruct (Hm env w) as [Hs _].
  unfold mbind, M_bind, bind. destruct (m env w) as [[a|e] w']; cbn in *.
  - apply Hk. unfold pass_held in *. congruence.
  - unfold pass_post, pass_held in *. cbn. congruence.
Qed.

Lemma process_queue_pass env w j rest :
  processing (session w) = None -> queue (session w) = j :: rest ->
  pass_post j rest (results (session w)) (process_queue env w).
Proof.
  intros Hp Hq.
  pose proof quiet_download_youtube_video as Qd.
  pose proof quiet_generate_subtitles as Qg.
  pose proof quiet_analyze_video_with_groq as Qa.
  pose proof quiet_create_shorts_parallel as Qc.
  pose proof quiet_create_zip as Qz.
  unfold process_queue.
  erewrite bind_Ok by reflexivity.
  rewrite (bool_decide_eq_true_2 _ Hp), bool_decide_eq_true_2 by now rewrite Hq.
  cbn [andb].
  erewrite bind_Ok by (apply queue_pop0_run; exact Hq).
  erewrite bind_Ok by reflexivity.
  apply pass_step; [apply quiet_emit | reflexivity | intros _ w1 H1].
  apply pass_step; [apply quiet_ask | exact H1 | clear w1 H1; intros d w1 H1].
  apply pass_step; [apply Qd | exact H1 | clear w1 H1; intros vp w1 H1].
  apply pass_step; [apply Qg | exact H1 | clear w1 H1; intros t w1 H1].
  apply pass_step; [apply Qa | exact H1 | clear w1 H1; intros sgs w1 H1].
  destruct sgs as [|sg sgs].
  - unfold pass_post, pass_held in *. unfold set_result, set_processing. unfold_M.
    cbn -[insert]. rewrite H1. cbn -[insert]. now eexists.
  - rewrite bind_assoc.
    apply pass_step; [apply quiet_emit | exact H1 | clear w1 H1; intros _ w1 H1].
    rewrite bind_assoc.
    apply pass_step;
      [apply Qc; intros x; apply quiet_emit | exact H1
      | clear w1 H1; intros shorts w1 H1].
    rewrite bind_assoc.
    apply pass_step; [apply Qz | exact H1 | clear w1 H1; intros z w1 H1].
    unfold pass_post, pass_held in *. unfold set_result, set_processing. unfold_M.
    cbn -[insert]. rewrite H1. cbn -[insert]. now eexists.
Qed.

(** X10.  A pass that stops at an exception loses its job: the job is gone
    from the queue, nothing is stored for it in the result store, not even
    the failure marker, and the slot still names it. *)
Theorem failed_pass_loses_job env w j rest e :
  processing (session w) = None -> queue (session w) = j :: rest ->
  fst (process_queue env w) = Raise e ->
  session (snd (process_queue env w))
  = SessionState rest (results (session w)) (Some (id j)).
Proof.
  intros Hp Hq He. pose proof (process_queue_pass env w j rest Hp Hq) as H.
  unfold pass_post in H. now rewrite He in H.
Qed.

(** X11.  A pass that runs to its end records an outcome for its job, [None]
    or a result, under the job's id, changes no other entry of the result
    store, and leaves the slot free and the rest of the queue waiting. *)
Theorem finished_pass_stores_one_outcome env w j rest :
  processing (session w) = None -> queue (session w) = j :: rest ->
  fst (process_queue env w) = Ok tt ->
  let s' := session (snd (process_queue env w)) in
  is_Some (results s' !! id j)
  /\ (forall k, k <> id j -> results s' !! k = results (session w) !! k)
  /\ queue s' = rest
  /\ processing s' = None.
Proof.
  intros Hp Hq He. pose proof (process_queue_pass env w j rest Hp Hq) as H.
  unfold pass_post in H. rewrite He in H. destruct H as [v Hv].
  cbn zeta. rewrite Hv. cbn -[insert]. split; [| split; [| split]].
  - rewrite lookup_insert_eq. now eexists.
  - intros k Hk. now rewrite lookup_insert_ne.
  - reflexivity.
  - reflexivity.
Qed.

(** ** Runs of the page *)

Lemma submit_job_full env w :
  submit_job env w =
  (Ok tt,
   if button env && bool_decide (text_input env ≠ EmptyString)
   then Machine (SessionState (queue (session w) ++ submitted env)
                   (results (session w)) (processing (session w)))
          (commands w)
          (ui w ++ [Info ("Job added to queue. Job ID: " +:+ uuid4 env)])
          (slot_log w)
   else w).
Proof.
  unfold submit_job, submitted, queue_append. unfold_M. cbn.
  now destruct (button env && bool_decide (text_input env ≠ EmptyString)).
Qed.

(** X12.  Without a click on the button, or with an empty URL field, the
    submission step does nothing at all: no job is queued, no message shown,
    and the uuid drawn for the run is dropped. *)
Theorem submit_job_needs_click_and_url env w :
  button env = false \/ text_input env = EmptyString ->
  submit_job env w = (Ok tt, w).
Proof.
  intros H. rewrite submit_job_full.
  destruct H as [-> | ->]; [reflexivity |].
  rewrite bool_decide_eq_false_2 by auto. now rewrite andb_false_r.
Qed.

Lemma submit_job_results env w :
  results (session (snd (submit_job env w))) = results (session w).
Proof.
  rewrite submit_job_full. cbn.
  now destruct (button env && bool_decide (text_input env ≠ EmptyString)).
Qed.

(** One run of the page, in full: either nothing is taken, or the head of
    the queue is taken and the pass ends in one of its two ways. *)
Lemma rerun_outcomes w env :
  let w' := rerun w env in
  let q := queue (session w) ++ submitted env in
  let R := results (session w) in
  ((processing (session w) <> None \/ q = [])
   /\ session w' = SessionState q R (processing (session w))
   /\ slot_log w' = slot_log w)
  \/ (exists j rest,
        processing (session w) = None /\ q = j :: rest
        /\ ((exists v, session w' = SessionState rest (<[id j := v]> R) None
                       /\ slot_log w' = slot_log w ++ [Acquire (id j); Release])
            \/ (session w' = SessionState rest R (Some (id j))
                /\ slot_log w' = slot_log w ++ [Acquire (id j)]))).
Proof.
  cbn zeta. unfold rerun.
  destruct (script_run env w) as (w1 & Hsub & Hq & Hp & Hl & ->).
  assert (HR : results (session w1) = results (session w)).
  { rewrite <- (submit_job_results env w). now rewrite Hsub. }
  destruct (processing (session w)) as [p|] eqn:Ep.
  - left. rewrite process_queue_skip by (left; congruence). cbn [snd].
    split; [now left |]. split; [| exact Hl].
    destruct (session w1). cbn in *. congruence.
  - destruct (queue (session w) ++ submitted env) as [|j rest] eqn:Eq.
    + left. rewrite process_queue_skip by now right. cbn [snd].
      split; [now right |]. split; [| exact Hl].
      destruct (session w1). cbn in *. congruence.
    + right. exists j, rest. split; [reflexivity |]. split; [reflexivity |].
      pose proof (process_queue_take env w1 j rest Hp Hq) as (_ & Gl & _).
      pose proof (process_queue_pass env w1 j rest Hp Hq) as Gs.
      unfold pass_post in Gs. rewrite HR, Hl in *.
      destruct (process_queue env w1) as [[[]|e] w2]; cbn in *.
      * left. destruct Gs as [v Hv]. now exists v.
      * right. now split.
Qed.

Lemma acquired_app l1 l2 : acquired (l1 ++ l2) = acquired l1 ++ acquired l2.
Proof. unfold acquired. apply omap_app. Qed.

Lemma rerun_stored_started w env :
  (forall k, is_Some (results (session w) !! k) -> k ∈ acquired (slot_log w)) ->
  forall k, is_Some (results (session (rerun w env)) !! k) ->
            k ∈ acquired (slot_log (rerun w env)).
Proof.
  intros Inv k.
  destruct (rerun_outcomes w env)
    as [(_ & -> & ->)
       | (j & rest & _ & _ & [(v & -> & ->) | (-> & ->)])]; cbn -[insert].
  - apply Inv.
  - rewrite acquired_app. cbn. intros Hk.
    apply elem_of_app.
    destruct (decide (k = id j)) as [-> | Hne];
      [right; now apply list_elem_of_singleton |].
    rewrite lookup_insert_ne in Hk by congruence. left. now apply Inv.
  - rewrite acquired_app. intros Hk. apply elem_of_app. left. now apply Inv.
Qed.

Lemma rerun_started_stored w env :
  (processing (session w) = None ->
   forall k, k ∈ acquired (slot_log w) -> is_Some (results (session w) !! k)) ->
  processing (session (rerun w env)) = None ->
  forall k, k ∈ acquired (slot_log (rerun w env)) ->
            is_Some (results (session (rerun w env)) !! k).
Proof.
  intros Inv.
  destruct (rerun_outcomes w env)
    as [(_ & -> & ->)
       | (j & rest & Hp & _ & [(v & -> & ->) | (-> & ->)])]; cbn -[insert].
  - exact Inv.
  - intros _ k. rewrite acquired_app. cbn. intros Hk.
    destruct (decide (k = id j)) as [-> | Hne].
    + rewrite lookup_insert_eq. now eexists.
    + rewrite lookup_insert_ne by congruence. apply (Inv Hp).
      apply elem_of_app in Hk as [Hk | Hk]; [exact Hk |].
      apply list_elem_of_singleton in Hk. congruence.
  - discriminate.
Qed.

Lemma run_session_from_stored envs : forall w,
  (forall k, is_Some (results (session w) !! k) -> k ∈ acquired (slot_log w)) ->
  (processing (session w) = None ->
   forall k, k ∈ acquired (slot_log w) -> is_Some (results (session w) !! k)) ->
  let w' := foldl rerun w envs in
  (forall k, is_Some (results (session w') !! k) -> k ∈ acquired (slot_log w'))
  /\ (processing (session w') = None ->
      forall k, k ∈ acquired (slot_log w') -> is_Some (results (session w') !! k)).
Proof.
  induction envs as [|env envs IH]; intros w I1 I2; cbn [foldl].
  - now split.
  - apply IH.
    + now apply rerun_stored_started.
    + now apply rerun_started_stored.
Qed.

(** X13.  Over every session, the result store has entries only for jobs
    that took the slot, and whenever the slot is free it has an entry for
    every job that took it: while idle, the stored ids are exactly the
    started ones. *)
Theorem stored_results_are_the_started_jobs (envs : list environment) (k : string) :
  let w := run_session envs in
  (is_Some (results (session w) !! k) -> k ∈ acquired (slot_log w))
  /\ (processing (session w) = None ->
      k ∈ acquired (slot_log w) -> is_Some (results (session w) !! k)).
Proof.
  cbn zeta.
  destruct (run_session_from_stored envs fresh) as [H1 H2].
  - intros k0. cbn. rewrite lookup_empty. now intros [? ?].
  - intros _ k0. cbn. intros Hk. now apply elem_of_nil in Hk.
  - split; [apply H1 | intros Hidle; now apply H2].
Qed.

(** X14.  One run of the page starts at most one job, however many wait: the
    queue loses at most its head, and the other jobs, old and newly
    submitted, keep their order behind it. *)
Theorem one_job_per_run w env :
  let w' := rerun w env in
  let q := queue (session w) ++ submitted env in
  (queue (session w') = q /\ acquired (slot_log w') = acquired (slot_log w))
  \/ (exists j, q = j :: queue (session w')
               /\ acquired (slot_log w') = acquired (slot_log w) ++ [id j]).
Proof.
  cbn zeta.
  destruct (rerun_outcomes w env)
    as [(_ & -> & ->)
       | (j & rest & _ & -> & [(v & -> & ->) | (-> & ->)])]; cbn.
  - now left.
  - right. exists j. now rewrite acquired_app.
  - right. exists j. now rewrite acquired_app.
Qed.

(** X15.  A job submitted to an idle page with an empty queue is started in
    the same run: it takes the slot at once and never waits in the queue. *)
Theorem job_submitted_to_idle_page_starts_at_once w env :
  processing (session w) = None -> queue (session w) = [] ->
  button env = true -> text_input env <> EmptyString ->
  acquired (slot_log (rerun w env)) = acquired (slot_log w) ++ [uuid4 env]
  /\ queue (session (rerun w env)) = [].
Proof.
  intros Hp Hq Hb Hu.
  assert (Hs : submitted env = [Job (uuid4 env) (text_input env)]).
  { unfold submitted. now rewrite Hb, bool_decide_eq_true_2. }
  destruct (rerun_outcomes w env)
    as [([Hbusy | Hempty] & _)
       | (j & rest & _ & Hj & [(v & -> & ->) | (-> & ->)])].
  - congruence.
  - rewrite Hq, Hs in Hempty. discriminate.
  - rewrite Hq, Hs in Hj. injection Hj as <- <-.
    now rewrite acquired_app.
  - rewrite Hq, Hs in Hj. injection Hj as <- <-.
    now rewrite acquired_app.
Qed.

(** ** The successful pass *)

Lemma create_shorts_parallel_recorded
    env w video_path transcript segments rendered :
  renders_to env video_path transcript segments rendered ->
  Permutation (delivery_order env) (seq 0 (length segments)) ->
  exists w',
    create_shorts_parallel video_path segments transcript
      (fun x => emit (Progress x)) env w
    = (Ok (PyList.sorted_reverse viral_score
             (in_delivery_order (delivery_order env) rendered)), w')
    /\ session w' = session w
    /\ ui w' = ui w ++ map Progress (progress_values (length segments)).
Proof.
  intros Hr Hp.
  destruct (create_shorts_parallel_run env w video_path transcript segments
              rendered Hr Hp) as (w1 & Hui & Hrun).
  pose proof (quiet_create_shorts_parallel video_path segments transcript
                (fun x => emit (Progress x)) (fun x => quiet_emit (Progress x))
                env w) as [Hs _].
  rewrite Hrun in Hs |- *. unfold mbind, M_bind, bind in Hs |- *.
  rewrite call_each_record in Hs |- *. cbn in Hs |- *.
  eexists. split; [reflexivity |]. cbn. now rewrite Hui.
Qed.

(** X16.  When every collaborator works and the scoring reply decodes to a
    non-empty candidate list whose renders all succeed, the pass ends
    normally, stores under the job's id the shorts sorted by score, those of
    equal score as [as_completed] delivered them, together with the bundle
    name, frees the slot, and shows in this order: the processing notice, the
    progress bar at 0, the N floats 1/N, ..., N/N, the emptied bar and the
    success message. *)
Theorem successful_pass_stores_sorted_shorts
    env w j rest body gbody segments rendered :
  processing (session w) = None ->
  queue (session w) = j :: rest ->
  pytube_ok env (url j) = true ->
  ffmpeg_on_path env = true ->
  (forall path, readable env path = true) ->
  whisper_post env = Response body ->
  groq_post env = Response gbody ->
  candidates_of env gbody = Some segments ->
  segments <> [] ->
  renders_to env (PyStr.path_join (mkdtemp env) "video.mp4")
    (default sentinel (transcript_of body)) segments rendered ->
  Permutation (delivery_order env) (seq 0 (length segments)) ->
  let out := process_queue env w in
  let sorted_shorts :=
    PyList.sorted_reverse viral_score
      (in_delivery_order (delivery_order env) rendered) in
  fst out = Ok tt
  /\ session (snd out)
     = SessionState rest
         (<[id j := Some (JobResult sorted_shorts "shorts_bundle.zip")]>
            (results (session w)))
         None
  /\ ui (snd out)
     = ui w ++ Info ("Processing Job: " +:+ id j) :: Progress 0
            :: map Progress (progress_values (length segments))
            ++ [ProgressEmpty; Success "Shorts Generated!"].
Proof.
  intros Hp Hq Hyt Hff Hrd Hpost Hg Hc Hne Hr Hperm.
  unfold process_queue.
  erewrite bind_Ok by reflexivity.
  rewrite (bool_decide_eq_true_2 _ Hp), bool_decide_eq_true_2 by now rewrite Hq.
  cbn [andb].
  erewrite bind_Ok by (apply queue_pop0_run; exact Hq).
  erewrite bind_Ok by reflexivity.
  erewrite bind_Ok by reflexivity.
  erewrite bind_Ok by reflexivity.
  erewrite bind_Ok by (rewrite download_youtube_video_run, Hyt; reflexivity).
  erewrite bind_Ok
    by (rewrite generate_subtitles_run, Hff, Hrd, Hpost; reflexivity).
  erewrite bind_Ok by (rewrite analyze_video_with_groq_run, Hg, Hc; reflexivity).
  change (default [] (Some segments)) with segments.
  destruct segments as [|sg sgs]; [congruence |]. cbv beta iota.
  set (segments := sg :: sgs) in *.
  rewrite bind_assoc. erewrite bind_Ok by reflexivity. rewrite bind_assoc.
  match goal with
  | |- context [mbind _ (create_shorts_parallel ?vp _ ?t _) env ?w4] =>
      destruct (create_shorts_parallel_recorded env w4 vp t segments rendered
                  Hr Hperm) as (w5 & Hrun & Hs5 & Hu5)
  end.
  erewrite bind_Ok by exact Hrun. rewrite bind_assoc.
  erewrite bind_Ok
    by (rewrite create_zip_run, find_unreadable_none;
        [reflexivity | apply List.Forall_forall; intros; apply Hrd]).
  unfold set_result, set_processing. unfold_M. cbn -[insert].
  rewrite Hs5, Hu5. cbn -[insert]. rewrite <- !app_assoc. cbn. now repeat split.
Qed.

(** ** No render is cancelled *)




Lemma keeps_commands_emit e : keeps_commands (emit e).
Proof. now intros env w. Qed.







(** ** After an exception *)

(** X18.  An exception raised in lines 97-128 of a run, that is by the pass
    over the queue, wedges the queue for good: the run had taken the head of
    the queue, and after any further runs, whatever they meet, the slot still
    names that job, no further job has been started, and submissions have
    only lengthened the queue.  (An exception of the display loop, which
    comes after these lines, is another matter: it leaves the slot as the
    pass left it.) *)
Theorem exception_in_pass_wedges_the_queue w env e (envs : list environment) :
  fst (script env w) = Raise e ->
  let w1 := rerun w env in
  let w' := foldl rerun w1 envs in
  exists j rest,
    queue (session w) ++ submitted env = j :: rest
    /\ processing (session w') = Some (id j)
    /\ slot_log w' = slot_log w ++ [Acquire (id j)]
    /\ queue (session w') = rest ++ concat (map submitted envs).
Proof.
  intros He. cbn zeta.
  destruct (script_run env w) as (w0 & _ & Hq & Hp & Hl & Hs).
  assert (Hr : rerun w env = snd (process_queue env w0))
    by (unfold rerun; now rewrite Hs).
  rewrite Hs in He. rewrite Hr.
  destruct (processing (session w0)) as [p|] eqn:Ep.
  { rewrite process_queue_skip in He by (left; congruence). discriminate. }
  destruct (queue (session w0)) as [|j rest] eqn:Eq.
  { rewrite process_queue_skip in He by now right. discriminate. }
  destruct (process_queue_take env w0 j rest Ep Eq) as (Gq & Gl & Gp).
  rewrite He in Gl, Gp. cbn in Gl, Gp.
  destruct (held_slot_stays_held envs (snd (process_queue env w0)) (id j) Gp)
    as (Fp & Fl & Fq).
  exists j, rest. split; [now rewrite <- Hq |]. split; [exact Fp |].
  split; [congruence |]. now rewrite Fq, Gq.
Qed.

(** ** The further properties at concrete inputs *)

Lemma process_segment_missing_bound_witness :
  process_segment "v.mp4" (Cases.unbounded 40) "text" 0
    (Examples.working "https://youtu.be/a" "job-A" [] []) fresh
  = (Raise (KeyError "start"), fresh).
Proof.
  refine (process_segment_missing_bound "v.mp4" (Cases.unbounded 40) "text" 0%nat
            _ fresh _).
  left. reflexivity.
Defined.



Lemma process_segment_files_distinct_witness :
  file (Examples.short_n "1" 40) <> file (Examples.short_n "2" 90).
Proof.
  refine (proj1 (process_segment_files_distinct "v.mp4"
                   (Examples.candidate 0 10 40) (Examples.candidate 10 20 90)
                   "text" 0%nat 1%nat
                   (Examples.working "https://youtu.be/a" "job-A" [] [])
                   fresh fresh _ _ _ _ _)); [lia | reflexivity | reflexivity].
Defined.

Lemma generate_subtitles_call_failure_propagates_witness :
  generate_subtitles "/tmp/tmpk3v9/video.mp4"
    (Cases.offline "https://youtu.be/a" "job-A") fresh
  = (Raise ConnectionError,
     add_commands fresh [audio_command "/tmp/tmpk3v9/video.mp4"]).
Proof.
  refine (generate_subtitles_call_failure_propagates _ _ fresh _ _ _); reflexivity.
Defined.

Lemma generate_subtitles_audio_step_witness :
  generate_subtitles "/tmp/tmpk3v9/video.mp4"
    (Cases.no_ffmpeg "https://youtu.be/a" "job-A") fresh
  = (Raise (FileNotFoundError "ffmpeg"), fresh)
  /\ fst (generate_subtitles "/tmp/tmpk3v9/video.mp4"
           (Cases.no_files "https://youtu.be/a" "job-A" [] []) fresh)
     = Raise (FileNotFoundError "/tmp/tmpk3v9/video.wav").
Proof.
  split.
  - refine (proj1 (generate_subtitles_audio_step _ _ fresh) _). reflexivity.
  - refine (proj2 (proj2 (generate_subtitles_audio_step
                            "/tmp/tmpk3v9/video.mp4"
                            (Cases.no_files "https://youtu.be/a" "job-A" [] [])
                            fresh) _) _); reflexivity.
Defined.

Lemma create_zip_outcome_witness :
  create_zip [Examples.short_n "2" 90; Examples.short_n "1" 40]
    (Examples.working "https://youtu.be/a" "job-A" [] []) fresh
  = (Ok "shorts_bundle.zip", fresh)
  /\ create_zip [Examples.short_n "2" 90; Examples.short_n "1" 40]
       (Cases.no_files "https://youtu.be/a" "job-A" [] []) fresh
     = (Raise (FileNotFoundError "short_2_subtitled.mp4"), fresh).
Proof.
  split.
  - refine (proj1 (create_zip_outcome _ fresh _) _).
    repeat constructor.
  - refine (proj2 (create_zip_outcome _ fresh _)
              [] (Examples.short_n "2" 90) [Examples.short_n "1" 40] _ _ _);
      [reflexivity | constructor | reflexivity].
Defined.

Lemma middle_unscored_outcomes :
  render_outcomes
    (Examples.working "https://youtu.be/a" "job-A" Cases.middle_unscored [0; 1; 2]%nat)
    "/tmp/tmpk3v9/video.mp4" "text" Cases.middle_unscored
    [Ok (Examples.short_n "1" 40); Raise (KeyError "viral_score");
     Ok (Examples.short_n "3" 10)].
Proof.
  unfold render_outcomes. cbn [PyList.enumerate Cases.middle_unscored].
  repeat (constructor; [intros w0; vm_compute; reflexivity |]).
  constructor.
Defined.

Lemma create_shorts_parallel_first_failure_witness :
  let env :=
    Examples.working "https://youtu.be/a" "job-A" Cases.middle_unscored [0; 1; 2]%nat in
  let w' := snd (create_shorts_parallel "/tmp/tmpk3v9/video.mp4"
                   Cases.middle_unscored "text" (fun x => emit (Progress x))
                   env fresh) in
  fst (create_shorts_parallel "/tmp/tmpk3v9/video.mp4" Cases.middle_unscored "text"
         (fun x => emit (Progress x)) env fresh)
  = Raise (KeyError "viral_score")
  /\ ui w' = ui fresh ++ map Progress (take 1 (progress_values 3))
  /\ session w' = session fresh.
Proof.
  intros env.
  pose proof (create_shorts_parallel_first_failure env fresh
                "/tmp/tmpk3v9/video.mp4" "text" Cases.middle_unscored _
                [Examples.short_n "1" 40] (KeyError "viral_score")
                [Ok (Examples.short_n "3" 10)]
                middle_unscored_outcomes (Permutation_refl _) eq_refl) as [H1 H2].
  split; [| exact H2].
  apply H1. intros x env0 w0. reflexivity.
Defined.

Lemma helpers_leave_session_state_alone_witness :
  quiet (create_shorts_parallel "v.mp4" Examples.three "text"
           (fun x => emit (Progress x))).
Proof.
  refine (proj1 (proj2 (proj2 (proj2 helpers_leave_session_state_alone)))
            "v.mp4" Examples.three "text" (fun x => emit (Progress x)) _).
  intros x env w. split; reflexivity.
Defined.

Lemma failed_pass_loses_job_witness :
  let env := Examples.unavailable "https://youtu.be/removed" "job-A" in
  let w := snd (submit_job env fresh) in
  session (snd (process_queue env w)) = SessionState [] ∅ (Some "job-A").
Proof.
  intros env w.
  refine (failed_pass_loses_job env w (Job "job-A" "https://youtu.be/removed") []
            VideoUnavailable _ _ _); reflexivity.
Defined.

Lemma finished_pass_stores_one_outcome_witness :
  let env := Examples.undecodable "https://youtu.be/a" "job-A" in
  let w := snd (submit_job env fresh) in
  let s' := session (snd (process_queue env w)) in
  is_Some (results s' !! "job-A")
  /\ (forall k, k <> "job-A" -> results s' !! k = results (session w) !! k)
  /\ queue s' = []
  /\ processing s' = None.
Proof.
  intros env w.
  refine (finished_pass_stores_one_outcome env w (Job "job-A" "https://youtu.be/a") []
            _ _ _); reflexivity.
Defined.

Lemma submit_job_needs_click_and_url_witness :
  submit_job (Cases.visit "https://youtu.be/a" "job-A") fresh = (Ok tt, fresh).
Proof.
  refine (submit_job_needs_click_and_url _ fresh _). left. reflexivity.
Defined.

Lemma stored_results_are_the_started_jobs_witness :
  "job-A" ∈ acquired (slot_log (run_session
                                  [Examples.undecodable "https://youtu.be/a" "job-A"])).
Proof.
  refine (proj1 (stored_results_are_the_started_jobs
                   [Examples.undecodable "https://youtu.be/a" "job-A"] "job-A") _).
  vm_compute. eexists. reflexivity.
Defined.

Lemma job_submitted_to_idle_page_starts_at_once_witness :
  let env := Examples.undecodable "https://youtu.be/a" "job-A" in
  acquired (slot_log (rerun fresh env)) = ["job-A"]
  /\ queue (session (rerun fresh env)) = [].
Proof.
  intros env.
  refine (job_submitted_to_idle_page_starts_at_once fresh env _ _ _ _);
    [reflexivity | reflexivity | reflexivity | discriminate].
Defined.

Lemma successful_pass_stores_sorted_shorts_witness :
  let env := Examples.working "https://youtu.be/a" "job-A" Examples.three [2; 0; 1]%nat in
  let w := snd (submit_job env fresh) in
  let out := process_queue env w in
  fst out = Ok tt
  /\ session (snd out)
     = SessionState []
         (<["job-A" := Some (JobResult
                               [Examples.short_n "2" 90; Examples.short_n "1" 40;
                                Examples.short_n "3" 10]
                               "shorts_bundle.zip")]> ∅)
         None
  /\ ui (snd out)
     = ui w ++ Info "Processing Job: job-A" :: Progress 0
            :: map Progress (progress_values 3)
            ++ [ProgressEmpty; Success "Shorts Generated!"].
Proof.
  intros env w.
  refine (successful_pass_stores_sorted_shorts env w
            (Job "job-A" "https://youtu.be/a") []
            (Some {[ "text" := "first line" +:+ PyStr.nl +:+ "second line" ]})
            (Some {[ "choices" := [ {[ "text" := "[...]" ]} ] ]})
            Examples.three
            [Examples.short_n "1" 40; Examples.short_n "2" 90; Examples.short_n "3" 10]
            _ _ _ _ _ _ _ _ _ _ three_complete);
    try reflexivity; try discriminate.
  unfold renders_to. cbn [PyList.enumerate Examples.three].
  repeat (constructor; [intros w0; vm_compute; reflexivity |]).
  constructor.
Defined.


Lemma exception_in_pass_wedges_the_queue_witness :
  let env := Examples.unavailable "https://youtu.be/removed" "job-A" in
  let later :=
    [Examples.working "https://youtu.be/b" "job-B" Examples.three [0; 1; 2]%nat] in
  let w' := foldl rerun (rerun fresh env) later in
  exists j rest,
    queue (session fresh) ++ submitted env = j :: rest
    /\ processing (session w') = Some (id j)
    /\ slot_log w' = slot_log fresh ++ [Acquire (id j)]
    /\ queue (session w') = rest ++ concat (map submitted later).
Proof.
  intros env later.
  refine (exception_in_pass_wedges_the_queue fresh env VideoUnavailable later _).
  reflexivity.
Defined.
